(** * regrouter: a regular-expression HTTP router

    A shallow embedding of [main.go] and [params.go] of the [regrouter]
    package, and the properties of its dispatch loop and parameter store.

    Layout: the Go runtime and library collaborators (strings, fmt, regexp,
    net/http) come first, as interfaces; then the package's own types and
    functions, translated function by function; then a small executable regexp
    engine and ASCII string functions that instantiate the interfaces; then
    the theorems. *)

From Stdlib Require Import String Ascii List ZArith Lia DecimalString.
From stdpp Require Import base option gmap strings list.

Local Open Scope string_scope.
Local Open Scope Z_scope.
Local Open Scope nat_scope.
Local Open Scope list_scope.

(** ** Go values *)

(** [interface{}]: the dynamic values that flow through payload maps and
    through [panic]/[recover].  [AString] is a Go [string]; [AError] is a
    value implementing [error] (in particular the [runtime.Error]s the Go
    runtime raises), carried by the text of its [Error()] method.  A [nil]
    interface is the absence of a value ([option any]); [panic(nil)] is not
    modelled. *)
Inductive any : Type :=
  | AString (s : string)
  | AError (msg : string).

(** A pure computation that either yields a value or panics. *)
Inductive Result (A : Type) : Type :=
  | Val (a : A)
  | Raise (v : any).
Arguments Val {A} a.
Arguments Raise {A} v.

(** The runtime errors that the translated code can raise. *)
Definition nil_map_assignment : any := AError "assignment to entry in nil map".
Definition nil_dereference : any :=
  AError "runtime error: invalid memory address or nil pointer dereference".
Definition index_out_of_range : any := AError "runtime error: index out of range".
Definition nil_not_string : any :=
  AError "interface conversion: interface {} is nil, not string".
Definition not_a_string : any :=
  AError "interface conversion: interface {} is not string".
Definition nil_not_Params : any :=
  AError "interface conversion: interface {} is nil, not regrouter.Params".

(** ** Library collaborators *)

(** [strings.ToUpper], [strings.EqualFold] and the [%q] verb of [fmt]
    ([strconv.Quote]) are Unicode aware; the router only passes values
    through them, so they are taken as an interface. *)
Class GoStrings : Type := {
  ToUpper : string -> string;
  EqualFold : string -> string -> bool;
  Quote : string -> string
}.

(** Package [regexp]: [Compile] returns a compiled expression or the text of
    the syntax error; [FindStringSubmatch] returns [nil] (the empty list) when
    there is no match, else the leftmost match followed by the text of every
    capture group; [SubexpNames] lists the group names, entry 0 being the
    empty name of the whole match. *)
Class GoRegexp : Type := {
  Regexp : Type;
  Compile : string -> Regexp + string;
  FindStringSubmatch : Regexp -> string -> list string;
  SubexpNames : Regexp -> list string
}.

(** [strings.Join]. *)
Fixpoint Join (elems : list string) (sep : string) : string :=
  match elems with
  | [] => ""
  | [e] => e
  | e :: rest => e +:+ sep +:+ Join rest sep
  end.

(** [fmt.Sprintf("%d", n)]. *)
Definition Sprintf_d (n : nat) : string := NilZero.string_of_uint (Nat.to_uint n).
Definition Sprintf_dZ (n : Z) : string := NilZero.string_of_int (Z.to_int n).

(** The [%s] verb applied to an [interface{}] operand. *)
Definition Sprintf_s (v : option any) : string :=
  match v with
  | Some (AString s) => s
  | Some (AError msg) => msg
  | None => "%!s(<nil>)"
  end.

(** [regexp.MustCompile]. *)
Definition MustCompile `{GoStrings} `{GoRegexp} (str : string) : Result Regexp :=
  match Compile str with
  | inl re => Val re
  | inr err => Raise (AString ("regexp: Compile(" +:+ Quote str +:+ "): " +:+ err))
  end.

(** ** params.go *)

(** [Params] holds a Go map, which is either [nil] ([None]) or a reference to
    a table.  Reads of a [nil] map behave like reads of an empty one; a write
    panics.  The map is shared by every copy of the struct, so [Params_Set]
    returns the store that all of them see afterwards. *)
Record Params : Type := { Values : option (gmap string string) }.

Definition map_index (p : Params) (key : string) : option string :=
  match Values p with
  | Some m => m !! key
  | None => None
  end.

(** [GetE] returns a param or error; the error is carried by its message. *)
Definition Params_GetE `{GoStrings} (p : Params) (key : string) : string * option string :=
  match map_index p key with
  | Some res => (res, None)
  | None => ("", Some (Quote key +:+ ": no such param"))
  end.

(** [Get] returns a param or empty string. *)
Definition Params_Get (p : Params) (key : string) : string :=
  match map_index p key with
  | Some res => res
  | None => ""
  end.

(** [Set] adds a param. *)
Definition Params_Set (p : Params) (key value : string) : Result (bool * Params) :=
  match Values p with
  | None => Raise nil_map_assignment
  | Some m =>
      let p' := {| Values := Some (<[key := value]> m) |} in
      Val (match map_index p' key with Some _ => true | None => false end, p')
  end.

(** ** net/http *)

(** The response sink: the header map (one value per canonical key, as
    written by [Header().Set]), the status line once written, and the body.
    As in net/http, only the first [WriteHeader] takes effect and a [Write]
    before any [WriteHeader] implies status 200. *)
Record ResponseWriter : Type := {
  Header : gmap string string;
  status : option Z;
  body : string
}.

Definition Header_Set (key value : string) (w : ResponseWriter) : ResponseWriter :=
  {| Header := <[key := value]> (Header w); status := status w; body := body w |}.

Definition WriteHeader (code : Z) (w : ResponseWriter) : ResponseWriter :=
  match status w with
  | Some _ => w
  | None => {| Header := Header w; status := Some code; body := body w |}
  end.

Definition Write (data : string) (w : ResponseWriter) : ResponseWriter :=
  let w' := WriteHeader 200 w in
  {| Header := Header w'; status := status w'; body := body w' +:+ data |}.

(** The request: method, [URL.Path], the header map, and the value stored in
    its context under the router's key (the only context key the package
    uses). *)
Record Request : Type := {
  Method : string;
  URL_Path : string;
  ReqHeader : gmap string string;
  Context : option Params
}.

Definition Header_Get (h : gmap string string) (key : string) : string :=
  default "" (h !! key).

Definition WithContext (r : Request) (p : Params) : Request :=
  {| Method := Method r; URL_Path := URL_Path r; ReqHeader := ReqHeader r;
     Context := Some p |}.

Definition WithPath (r : Request) (path : string) : Request :=
  {| Method := Method r; URL_Path := path; ReqHeader := ReqHeader r;
     Context := Context r |}.

(** What a call of a handler does: it returns, or it panics, and in both
    cases it leaves the response sink in some state. *)
Inductive Outcome : Type :=
  | Returns (w : ResponseWriter)
  | Panics (v : any) (w : ResponseWriter).

(** [http.HandlerFunc].  A [nil] function value is the function that panics
    at once. *)
Definition HandlerFunc : Type := ResponseWriter -> Request -> Outcome.

Definition nilFunc : HandlerFunc := fun w _ => Panics nil_dereference w.

(** [http.FileServer(http.Dir(root))] is a collaborator. *)
Class GoFileServer : Type := {
  FileServer : string -> HandlerFunc
}.

Definition StatusText (code : Z) : string :=
  match code with
  | 404%Z => "Not Found"
  | 405%Z => "Method Not Allowed"
  | 500%Z => "Internal Server Error"
  | _ => ""
  end.

(** [http.Error]. *)
Definition http_Error (w : ResponseWriter) (error : string) (code : Z) : ResponseWriter :=
  let w1 := Header_Set "Content-Type" "text/plain; charset=utf-8" w in
  let w2 := Header_Set "X-Content-Type-Options" "nosniff" w1 in
  let w3 := WriteHeader code w2 in
  Write (error +:+ String "010" "") w3.

(** ** main.go *)

(** *** Calls to collaborators

    Handlers and header writers are opaque functions supplied by the caller.
    To state which of them a dispatch invokes, how often and with what
    arguments, the model keeps a log next to the response sink: every call
    site of [Handler] that invokes such a function appends one entry before
    the callee runs.  The log is not visible to the callee. *)
Inductive Call : Type :=
  | CallCORS (methods : list string)
  | CallRoute (index : nat) (params : Params)
  | CallErrorCode (code : Z) (data : gmap string any).

Record World : Type := { writer : ResponseWriter; calls : list Call }.

(** A step of the dispatch body: it completes with a value or panics, and
    leaves the world in some state either way. *)
Inductive Res (A : Type) : Type :=
  | Ok (a : A) (σ : World)
  | Fault (v : any) (σ : World).
Arguments Ok {A} a σ.
Arguments Fault {A} v σ.

Definition M (A : Type) : Type := World -> Res A.

Definition ret {A} (a : A) : M A := fun σ => Ok a σ.

Definition bind {A B} (m : M A) (k : A -> M B) : M B :=
  fun σ => match m σ with
           | Ok a σ' => k a σ'
           | Fault v σ' => Fault v σ'
           end.

Notation "'let!' x ':=' m 'in' k" := (bind m (fun x => k))
  (at level 10, x name, m at level 100, k at level 200).
Notation "'do!' m 'then' k" := (bind m (fun _ => k))
  (at level 10, m at level 100, k at level 200).

(** Run a pure fallible computation inside a step. *)
Definition lift {A} (c : Result A) : M A :=
  fun σ => match c with
           | Val a => Ok a σ
           | Raise v => Fault v σ
           end.

(** Call a collaborator on the response sink, logging the call. *)
Definition invoke (c : Call) (f : ResponseWriter -> Outcome) : M unit :=
  fun σ =>
    let log := calls σ ++ [c] in
    match f (writer σ) with
    | Returns w => Ok tt {| writer := w; calls := log |}
    | Panics v w => Fault v {| writer := w; calls := log |}
    end.

(** A direct write to the response sink. *)
Definition modify (f : ResponseWriter -> ResponseWriter) : M unit :=
  fun σ => Ok tt {| writer := f (writer σ); calls := calls σ |}.

Definition res_world {A} (x : Res A) : World :=
  match x with
  | Ok _ σ => σ
  | Fault _ σ => σ
  end.

Definition res_fault {A} (x : Res A) : option any :=
  match x with
  | Ok _ _ => None
  | Fault v _ => Some v
  end.

(** The type assertion [v.(string)]. *)
Definition assert_string (v : option any) : Result string :=
  match v with
  | Some (AString s) => Val s
  | Some (AError _) => Raise not_a_string
  | None => Raise nil_not_string
  end.

(** Handlers are default error code handlers + CORS. *)
Record Handlers : Type := {
  Handlers_CORS : list string -> HandlerFunc;
  ErrorCodes : gmap Z (gmap string any -> HandlerFunc)
}.

(** Default CORS response. *)
Definition default_CORS (methods : list string) : HandlerFunc :=
  fun w r =>
    let w1 := Header_Set "Access-Control-Allow-Origin" (Header_Get (ReqHeader r) "Origin") w in
    let w2 := Header_Set "Access-Control-Allow-Methods" (Join methods ", ") w1 in
    let w3 := Header_Set "Access-Control-Allow-Credentials" "true" w2 in
    Returns (Header_Set "Access-Control-Allow-Headers"
      "Accept, Content-Type, Content-Length, Accept-Encoding, X-CSRF-Token, Authorization" w3).

(** Default error handlers. *)
Definition default_404 (data : gmap string any) : HandlerFunc :=
  fun w r =>
    let code := 404%Z in
    Returns (http_Error w
      (Sprintf_dZ code +:+ " - " +:+ StatusText code +:+ String "010" "") code).

Definition default_405 (data : gmap string any) : HandlerFunc :=
  fun w r =>
    let code := 405%Z in
    match assert_string (data !! "allowed") with
    | Raise v => Panics v w
    | Val allowed =>
        let w1 := Header_Set "Allow" allowed w in
        Returns (http_Error w1
          (Sprintf_dZ code +:+ " - " +:+ StatusText code +:+ " (Valid: "
             +:+ Sprintf_s (data !! "allowed") +:+ ")" +:+ String "010" "") code)
    end.

Definition default_500 (data : gmap string any) : HandlerFunc :=
  fun w r =>
    let code := 500%Z in
    Returns (http_Error w
      (Sprintf_dZ code +:+ " - " +:+ StatusText code +:+ " (Exception: "
         +:+ Sprintf_s (data !! "exception") +:+ ")" +:+ String "010" "") code).

Definition default_Handlers : Handlers :=
  {| Handlers_CORS := default_CORS;
     ErrorCodes := <[404%Z := default_404]> (<[405%Z := default_405]>
                     (<[500%Z := default_500]> ∅)) |}.

Section Router.
Context `{GoStrings} `{GoRegexp} `{GoFileServer}.

(** Route is the http routes. *)
Record Route : Type := {
  method : string;
  regex : Regexp;
  handler : HandlerFunc;
  CORS : bool
}.

(** RegRouter is the RegRouter instance.  [CTX] is the empty struct used
    as context key. *)
Record RegRouter : Type := {
  Routes : list Route;
  CTX : unit;
  RHandlers : Handlers
}.

(** New returns a RegRouter instance. *)
Definition New : RegRouter :=
  {| Routes := []; CTX := tt; RHandlers := default_Handlers |}.

(** [rr.Handlers.ErrorCodes[code](data, w, r)]: a missing entry is a nil
    function. *)
Definition call_ErrorCode (rr : RegRouter) (code : Z) (data : gmap string any)
    (r : Request) : M unit :=
  invoke (CallErrorCode code data)
    (fun w => default nilFunc ((λ h, h data) <$> ErrorCodes (RHandlers rr) !! code) w r).

(** [rr.Handlers.CORS(methods, w, r)]. *)
Definition call_CORS (rr : RegRouter) (methods : list string) (r : Request) : M unit :=
  invoke (CallCORS methods) (fun w => Handlers_CORS (RHandlers rr) methods w r).

(** The key a capture group is stored under: [fmt.Sprintf("%d", i)] when
    the name is empty, else the name. *)
Definition param_key (i : nat) (name : string) : string :=
  if bool_decide (String.length name = 0) then Sprintf_d i else name.

(** Build a list url params based on named regex AND/OR index: the loop
    over [route.regex.SubexpNames()], from index [i] on. *)
Fixpoint set_params (i : nat) (names matches : list string) (params : Params)
    : Result Params :=
  match names with
  | [] => Val params
  | name :: names' =>
      match matches !! i with
      | None => Raise index_out_of_range
      | Some m =>
          match Params_Set params (param_key i name) m with
          | Raise v => Raise v
          | Val (_, params') => set_params (S i) names' matches params'
          end
      end
  end.

(** The statements after the route loop: handle CORS or provide a list of
    allowed request methods, else a 404. *)
Definition no_dispatch (rr : RegRouter) (r : Request) (methods allowed : list string)
    : M unit :=
  if bool_decide (0 < length methods) then
    do! call_CORS rr methods r then
    modify (WriteHeader 204)
  else if bool_decide (0 < length allowed) then
    call_ErrorCode rr 405 {[ "allowed" := AString (Join allowed ", ") ]} r
  else
    call_ErrorCode rr 404 ∅ r.

(** Populate the params from the match and run the request handler. *)
Definition run_route (rr : RegRouter) (r : Request) (i : nat) (route : Route)
    (matches : list string) (params : Params) : M unit :=
  let! params' := lift (set_params 0 (SubexpNames (regex route)) matches params) in
  invoke (CallRoute i params') (fun w => handler route w (WithContext r params')).

(** Loop each route: [routes] is what is left of [rr.Routes], [i] the
    index of its head. *)
Fixpoint route_loop (rr : RegRouter) (r : Request) (i : nat) (routes : list Route)
    (methods allowed : list string) (params : Params) : M unit :=
  match routes with
  | [] => no_dispatch rr r methods allowed
  | route :: routes' =>
      let matches := FindStringSubmatch (regex route) (URL_Path r) in
      if bool_decide (0 < length matches) then
        if CORS route then
          let methods := methods ++ [method route] in
          if negb (EqualFold (Method r) (method route)) then
            route_loop rr r (S i) routes' methods (allowed ++ [method route]) params
          else
            do! call_CORS rr methods r then
            run_route rr r i route matches params
        else
          run_route rr r i route matches params
      else
        route_loop rr r (S i) routes' methods allowed params
  end.

(** The body of the function literal of [Handler], without the deferred
    call. *)
Definition Handler_body (rr : RegRouter) (r : Request) : M unit :=
  route_loop rr r 0 (Routes rr) [] [] {| Values := Some ∅ |}.

(** The deferred function: attempt to recover from any errors for a 500
    error response.  A panic of the 500 handler itself is not recovered. *)
Definition recover_500 (rr : RegRouter) (r : Request) (x : Res unit) : Res unit :=
  match x with
  | Ok _ σ => Ok tt σ
  | Fault err σ => call_ErrorCode rr 500 {[ "exception" := err ]} r σ
  end.

(** Handler returns an HTTP handler; [ServeHTTP] of that handler on a
    response sink and a request, with the log of the calls made. *)
Definition Handler (rr : RegRouter) (w : ResponseWriter) (r : Request) : Res unit :=
  recover_500 rr r (Handler_body rr r {| writer := w; calls := [] |}).

(** Add adds a route to the RegRouter. *)
Definition Add (rr : RegRouter) (method pattern : string) (handler : HandlerFunc)
    (cors : bool) : Result RegRouter :=
  match MustCompile ("^" +:+ pattern +:+ "$") with
  | Raise v => Raise v
  | Val re =>
      Val {| Routes := Routes rr ++ [ {| method := ToUpper method; regex := re;
                                         handler := handler; CORS := cors |} ];
             CTX := CTX rr; RHandlers := RHandlers rr |}
  end.

(** Params is a helper to get request paramaters: the context value under
    [rr.CTX], asserted to be a [Params]. *)
Definition RegRouter_Params (rr : RegRouter) (r : Request) : Result Params :=
  match Context r with
  | Some p => Val p
  | None => Raise nil_not_Params
  end.

(** The handler that [Static] registers. *)
Definition Static_handler (rr : RegRouter) (path : string) : HandlerFunc :=
  fun w r =>
    match RegRouter_Params rr r with
    | Raise v => Panics v w
    | Val p =>
        match Params_GetE p "filepath" with
        | (file, None) => FileServer path w (WithPath r ("/" +:+ file))
        | (_, Some _) => Returns w
        end
    end.

(** Static servers static files. *)
Definition Static (rr : RegRouter) (path pattern : string) : Result RegRouter :=
  Add rr "GET" pattern (Static_handler rr path) false.

End Router.

(** * An executable instance of the collaborators

    ASCII versions of the string functions, and a regexp engine for a
    fragment of the syntax that package [regexp] accepts (RE2 syntax without
    flags): literals, escaped punctuation, [.], bracket classes, the Perl
    classes [\d \s \w], the anchors [^ $ \A \z], grouping with [( )], [(?: )]
    and [(?P<name> )], alternation, and the repetitions [* + ?] with their
    lazy forms.  Matching is the leftmost-first (backtracking) discipline of
    [regexp.Compile].  Text is taken byte by byte, which agrees with Go on
    ASCII text.  [Compile_re] answers [inr] both for what Go rejects and for
    what lies outside the fragment. *)

Module RE.

(** The operators of [regexp/syntax]. *)
Inductive re : Type :=
  | EmptyMatch
  | Literal (c : ascii)
  | AnyCharNotNL
  | CharClass (negated : bool) (ranges : list (ascii * ascii))
  | BeginText
  | EndText
  | Concat (a b : re)
  | Alternate (a b : re)
  | Star (greedy : bool) (a : re)
  | Plus (greedy : bool) (a : re)
  | Quest (greedy : bool) (a : re)
  | Capture (index : nat) (name : string) (a : re).

(** A compiled expression. *)
Record t : Type := {
  prog : re;
  numSubexp : nat;
  subexpNames : list string
}.

Definition code (c : ascii) : nat := nat_of_ascii c.

Definition in_range (c : ascii) (rg : ascii * ascii) : bool :=
  (code (fst rg) <=? code c) && (code c <=? code (snd rg)).

Definition in_class (negated : bool) (ranges : list (ascii * ascii)) (c : ascii) : bool :=
  xorb negated (existsb (in_range c) ranges).

(** Capture positions: entry [i] is the span of group [i], when it took
    part in the match. *)
Definition caps : Type := list (option (nat * nat)).

(** The rest of a match: position, remaining text, captures so far. *)
Definition cont : Type := nat -> list ascii -> caps -> option caps.

Definition orelse (x : option caps) (y : unit -> option caps) : option caps :=
  match x with
  | Some c => Some c
  | None => y tt
  end.

(** The rounds of a repetition of [step], followed by [k].  A round that
    consumed nothing is given up, so a repetition on [rest] can use no more
    than [S (length rest)] rounds. *)
Definition repeat_loop (greedy : bool)
    (step : nat -> list ascii -> caps -> cont -> option caps) (k : cont)
    : nat -> nat -> list ascii -> caps -> option caps :=
  fix loop (n : nat) (pos : nat) (rest : list ascii) (cs : caps) : option caps :=
    match n with
    | 0 => k pos rest cs
    | S n' =>
        let again := fun _ : unit =>
          step pos rest cs (fun pos' rest' cs' =>
            if pos' =? pos then None else loop n' pos' rest' cs') in
        if greedy then orelse (again tt) (fun _ => k pos rest cs)
        else orelse (k pos rest cs) again
    end.

(** Backtracking matcher. *)
Fixpoint run (r : re) (pos : nat) (rest : list ascii) (cs : caps) (k : cont)
    {struct r} : option caps :=
  match r with
  | EmptyMatch => k pos rest cs
  | Literal c =>
      match rest with
      | c' :: rest' => if Ascii.eqb c c' then k (S pos) rest' cs else None
      | [] => None
      end
  | AnyCharNotNL =>
      match rest with
      | c' :: rest' => if Ascii.eqb c' "010" then None else k (S pos) rest' cs
      | [] => None
      end
  | CharClass negated ranges =>
      match rest with
      | c' :: rest' => if in_class negated ranges c' then k (S pos) rest' cs else None
      | [] => None
      end
  | BeginText => if pos =? 0 then k pos rest cs else None
  | EndText => match rest with [] => k pos rest cs | _ :: _ => None end
  | Concat a b => run a pos rest cs (fun pos' rest' cs' => run b pos' rest' cs' k)
  | Alternate a b => orelse (run a pos rest cs k) (fun _ => run b pos rest cs k)
  | Quest greedy a =>
      if greedy then orelse (run a pos rest cs k) (fun _ => k pos rest cs)
      else orelse (k pos rest cs) (fun _ => run a pos rest cs k)
  | Star greedy a => repeat_loop greedy (run a) k (S (length rest)) pos rest cs
  | Plus greedy a =>
      run a pos rest cs (fun pos1 rest1 cs1 =>
        repeat_loop greedy (run a) k (S (length rest1)) pos1 rest1 cs1)
  | Capture index _ a =>
      run a pos rest cs (fun pos' rest' cs' => k pos' rest' (<[index := Some (pos, pos')]> cs'))
  end.

(** Unanchored search: the leftmost start position that matches wins. *)
Fixpoint search (r : re) (n : nat) (pos : nat) (rest : list ascii) : option caps :=
  match run r pos rest (replicate (S n) None)
          (fun pos' _ cs => Some (<[0 := Some (pos, pos')]> cs)) with
  | Some cs => Some cs
  | None =>
      match rest with
      | [] => None
      | _ :: rest' => search r n (S pos) rest'
      end
  end.

Definition span_text (s : string) (sp : option (nat * nat)) : string :=
  match sp with
  | Some (b, e) => substring b (e - b) s
  | None => ""
  end.

Definition FindStringSubmatch_re (x : t) (s : string) : list string :=
  match search (prog x) (numSubexp x) 0 (list_ascii_of_string s) with
  | Some cs => span_text s <$> cs
  | None => []
  end.

(** ** Parsing *)

Definition is_digit (c : ascii) : bool := (48 <=? code c) && (code c <=? 57).
Definition is_upper (c : ascii) : bool := (65 <=? code c) && (code c <=? 90).
Definition is_lower (c : ascii) : bool := (97 <=? code c) && (code c <=? 122).
Definition is_word (c : ascii) : bool :=
  is_digit c || is_upper c || is_lower c || Ascii.eqb c "_".
Definition is_punct (c : ascii) : bool :=
  (33 <=? code c) && (code c <=? 126) && negb (is_word c).

Definition perl_d : list (ascii * ascii) := [("0", "9")]%char.
Definition perl_s : list (ascii * ascii) :=
  [("009", "010"); ("012", "013"); (" ", " ")]%char.
Definition perl_w : list (ascii * ascii) :=
  [("0", "9"); ("A", "Z"); ("_", "_"); ("a", "z")]%char.

(** The items of a bracket class, up to the closing bracket. *)
Fixpoint parse_class (s : list ascii) : option (list (ascii * ascii) * list ascii) :=
  match s with
  | [] => None
  | "]"%char :: rest => Some ([], rest)
  | "\"%char :: c :: rest =>
      if is_punct c then
        match parse_class rest with
        | Some (rs, rest') => Some ((c, c) :: rs, rest')
        | None => None
        end
      else None
  | lo :: "-"%char :: hi :: rest =>
      if Ascii.eqb hi "]" then Some ([(lo, lo); ("-", "-")]%char, rest)
      else if Ascii.eqb hi "\" then None
      else if code lo <=? code hi then
        match parse_class rest with
        | Some (rs, rest') => Some ((lo, hi) :: rs, rest')
        | None => None
        end
      else None
  | c :: rest =>
      match parse_class rest with
      | Some (rs, rest') => Some ((c, c) :: rs, rest')
      | None => None
      end
  end.

(** A group name, up to the closing angle bracket. *)
Fixpoint parse_name (s : list ascii) : option (string * list ascii) :=
  match s with
  | [] => None
  | ">"%char :: rest => Some ("", rest)
  | c :: rest =>
      if is_word c then
        match parse_name rest with
        | Some (nm, rest') => Some (String c nm, rest')
        | None => None
        end
      else None
  end.

Definition is_repeat (c : ascii) : bool :=
  Ascii.eqb c "*" || Ascii.eqb c "+" || Ascii.eqb c "?".

(** One repetition operator after an atom, with its lazy mark; a second
    operator in a row is rejected. *)
Definition parse_repeat (a : re) (s : list ascii) : option (re * list ascii) :=
  match s with
  | op :: rest =>
      if is_repeat op then
        let '(greedy, rest1) :=
          match rest with
          | "?"%char :: rest1 => (false, rest1)
          | _ => (true, rest)
          end in
        let node :=
          if Ascii.eqb op "*" then Star greedy a
          else if Ascii.eqb op "+" then Plus greedy a
          else Quest greedy a in
        match rest1 with
        | c :: _ => if is_repeat c then None else Some (node, rest1)
        | [] => Some (node, rest1)
        end
      else Some (a, s)
  | [] => Some (a, s)
  end.

(** Recursive descent; [g] is the index of the next capture group. *)
Fixpoint parse_alt (fuel : nat) (g : nat) (s : list ascii) {struct fuel}
    : option (re * nat * list ascii) :=
  match fuel with
  | 0 => None
  | S fuel' =>
      match parse_cat fuel' g s with
      | Some (a, g1, "|"%char :: rest) =>
          match parse_alt fuel' g1 rest with
          | Some (b, g2, rest') => Some (Alternate a b, g2, rest')
          | None => None
          end
      | other => other
      end
  end
with parse_cat (fuel : nat) (g : nat) (s : list ascii) {struct fuel}
    : option (re * nat * list ascii) :=
  match fuel with
  | 0 => None
  | S fuel' =>
      match s with
      | [] => Some (EmptyMatch, g, s)
      | "|"%char :: _ => Some (EmptyMatch, g, s)
      | ")"%char :: _ => Some (EmptyMatch, g, s)
      | _ =>
          match parse_atom fuel' g s with
          | Some (a, g1, rest) =>
              match parse_repeat a rest with
              | Some (a', rest1) =>
                  match parse_cat fuel' g1 rest1 with
                  | Some (EmptyMatch, g2, rest2) => Some (a', g2, rest2)
                  | Some (b, g2, rest2) => Some (Concat a' b, g2, rest2)
                  | None => None
                  end
              | None => None
              end
          | None => None
          end
      end
  end
with parse_atom (fuel : nat) (g : nat) (s : list ascii) {struct fuel}
    : option (re * nat * list ascii) :=
  match fuel with
  | 0 => None
  | S fuel' =>
      match s with
      | [] => None
      | "("%char :: "?"%char :: ":"%char :: rest =>
          match parse_alt fuel' g rest with
          | Some (a, g1, ")"%char :: rest') => Some (a, g1, rest')
          | _ => None
          end
      | "("%char :: "?"%char :: "P"%char :: "<"%char :: rest =>
          match parse_name rest with
          | Some (EmptyString, _) => None
          | Some (nm, rest1) =>
              match parse_alt fuel' (S g) rest1 with
              | Some (a, g1, ")"%char :: rest') => Some (Capture g nm a, g1, rest')
              | _ => None
              end
          | None => None
          end
      | "("%char :: "?"%char :: _ => None
      | "("%char :: rest =>
          match parse_alt fuel' (S g) rest with
          | Some (a, g1, ")"%char :: rest') => Some (Capture g "" a, g1, rest')
          | _ => None
          end
      | "["%char :: "^"%char :: rest =>
          match parse_class rest with
          | Some ((_ :: _) as rs, rest') => Some (CharClass true rs, g, rest')
          | _ => None
          end
      | "["%char :: rest =>
          match parse_class rest with
          | Some ((_ :: _) as rs, rest') => Some (CharClass false rs, g, rest')
          | _ => None
          end
      | "."%char :: rest => Some (AnyCharNotNL, g, rest)
      | "^"%char :: rest => Some (BeginText, g, rest)
      | "$"%char :: rest => Some (EndText, g, rest)
      | "\"%char :: c :: rest =>
          if is_punct c then Some (Literal c, g, rest)
          else if Ascii.eqb c "d" then Some (CharClass false perl_d, g, rest)
          else if Ascii.eqb c "D" then Some (CharClass true perl_d, g, rest)
          else if Ascii.eqb c "s" then Some (CharClass false perl_s, g, rest)
          else if Ascii.eqb c "S" then Some (CharClass true perl_s, g, rest)
          else if Ascii.eqb c "w" then Some (CharClass false perl_w, g, rest)
          else if Ascii.eqb c "W" then Some (CharClass true perl_w, g, rest)
          else if Ascii.eqb c "A" then Some (BeginText, g, rest)
          else if Ascii.eqb c "z" then Some (EndText, g, rest)
          else None
      | c :: rest =>
          if is_repeat c || Ascii.eqb c "{" || Ascii.eqb c "}" || Ascii.eqb c "\"
             || Ascii.eqb c "]"
          then None
          else Some (Literal c, g, rest)
      end
  end.

(** Group names in index order, after the empty name of group 0. *)
Fixpoint names_of (r : re) : list string :=
  match r with
  | Concat a b | Alternate a b => names_of a ++ names_of b
  | Star _ a | Plus _ a | Quest _ a => names_of a
  | Capture _ name a => name :: names_of a
  | _ => []
  end.

Definition Compile_re (str : string) : t + string :=
  let s := list_ascii_of_string str in
  match parse_alt (4 * length s + 8) 1 s with
  | Some (r, g, []) =>
      inl {| prog := r; numSubexp := g - 1; subexpNames := "" :: names_of r |}
  | Some (_, _, _ :: _) => inr "unexpected )"
  | None => inr "error parsing regexp"
  end.

End RE.

(** ** ASCII string functions *)

Module ASCII.

Definition upper (c : ascii) : ascii :=
  if RE.is_lower c then ascii_of_nat (RE.code c - 32) else c.

Definition lower (c : ascii) : ascii :=
  if RE.is_upper c then ascii_of_nat (RE.code c + 32) else c.

Fixpoint map_string (f : ascii -> ascii) (s : string) : string :=
  match s with
  | EmptyString => EmptyString
  | String c s' => String (f c) (map_string f s')
  end.

Definition ToUpper_ascii (s : string) : string := map_string upper s.

Definition EqualFold_ascii (s t : string) : bool :=
  String.eqb (map_string lower s) (map_string lower t).

(** [strconv.Quote] on printable ASCII: the text between double quotes,
    with a backslash before each double quote and backslash. *)
Fixpoint escape (s : string) : string :=
  match s with
  | EmptyString => EmptyString
  | String c s' =>
      if Ascii.eqb c "034" || Ascii.eqb c "\"
      then String "\" (String c (escape s'))
      else String c (escape s')
  end.

Definition Quote_ascii (s : string) : string :=
  String "034" (escape s +:+ String "034" "").

End ASCII.

Definition ascii_strings : GoStrings :=
  {| ToUpper := ASCII.ToUpper_ascii;
     EqualFold := ASCII.EqualFold_ascii;
     Quote := ASCII.Quote_ascii |}.

Definition re_regexp : GoRegexp :=
  {| Regexp := RE.t;
     Compile := RE.Compile_re;
     FindStringSubmatch := RE.FindStringSubmatch_re;
     SubexpNames := RE.subexpNames |}.

(** A file server for the examples: it answers 200 with the root and the
    requested path as body. *)
Definition echo_file_server : GoFileServer :=
  {| FileServer := fun root w r => Returns (Write (root +:+ URL_Path r) w) |}.

(** * Vocabulary of the statements *)

(** What a run of the matcher reaches its continuation with: the position
    has advanced by as much as the text has shrunk, and the capture table has
    kept its length. *)
Definition reached (pos : nat) (rest : list ascii) (cs : RE.caps) (k : RE.cont)
    (res : RE.caps) : Prop :=
  ∃ pos' rest' cs',
    k pos' rest' cs' = Some res
    ∧ pos' + length rest' = pos + length rest
    ∧ length cs' = length cs.


Section Vocabulary.
Context `{GoStrings} `{GoRegexp} `{GoFileServer}.

(** The test [len(matches) > 0] of the route loop. *)
Definition matches_path (r : Request) (route : Route) : bool :=
  bool_decide (0 < length (FindStringSubmatch (regex route) (URL_Path r))).

(** The test [strings.EqualFold(r.Method, route.method)]. *)
Definition method_matches (r : Request) (route : Route) : bool :=
  EqualFold (Method r) (method route).

(** A route the loop stops at: its pattern matches the path and the loop
    does not reach [continue]. *)
Definition taken (r : Request) (route : Route) : bool :=
  matches_path r route && negb (CORS route && negb (method_matches r route)).

(** The methods of the routes of a list whose pattern matches the path. *)
Definition matching_methods (r : Request) (routes : list Route) : list string :=
  method <$> filter (λ route, matches_path r route = true) routes.

(** The store obtained from [store] by setting, in index order, the key of
    each group to its matched text. *)
Definition set_in_order (names matches : list string) (store : gmap string string)
    : gmap string string :=
  fold_left (λ m kv, <[kv.1 := kv.2]> m) (zip (imap param_key names) matches) store.

(** The world a dispatch starts in. *)
Definition start (w : ResponseWriter) : World := {| writer := w; calls := [] |}.

(** The calls a dispatch made. *)
Definition calls_of (x : Res unit) : list Call := calls (res_world x).

Definition is_route_call (c : Call) : bool :=
  match c with CallRoute _ _ => true | _ => false end.

Definition is_error_call (code : Z) (c : Call) : bool :=
  match c with CallErrorCode code' _ => bool_decide (code' = code) | _ => false end.

Definition is_cors_call (c : Call) : bool :=
  match c with CallCORS _ => true | _ => false end.

(** The store that the loop over [SubexpNames] builds for a route on the path
    of a request. *)
Definition match_store (r : Request) (route : Route) : Params :=
  {| Values := Some (set_in_order (SubexpNames (regex route))
                       (FindStringSubmatch (regex route) (URL_Path r)) ∅) |}.

(** The test that every route of a list is one the loop passes over. *)
Definition all_passed (r : Request) (routes : list Route) : bool :=
  forallb (λ route, negb (taken r route)) routes.

(** The test that every route of a list whose pattern matches the path is a
    CORS route of another method than the request's. *)
Definition only_other_cors (r : Request) (routes : list Route) : bool :=
  forallb (λ route, negb (matches_path r route)
                    || (CORS route && negb (method_matches r route))) routes.

End Vocabulary.

(** * Example routers *)

Section Examples.
#[local] Existing Instance ascii_strings.
#[local] Existing Instance re_regexp.
#[local] Existing Instance echo_file_server.

Definition say (text : string) : HandlerFunc := fun w _ => Returns (Write text w).

Definition boom (text : string) : HandlerFunc := fun w _ => Panics (AString text) w.

Definition blank : ResponseWriter := {| Header := ∅; status := None; body := "" |}.

Definition request (m path : string) : Request :=
  {| Method := m; URL_Path := path; ReqHeader := {[ "Origin" := "http://example.org" ]};
     Context := None |}.

Definition and_then {A B} (x : Result A) (k : A -> Result B) : Result B :=
  match x with
  | Val a => k a
  | Raise v => Raise v
  end.

(** What a registration returned, when it returned. *)
Definition is_Val {A} (x : Result A) : bool :=
  match x with
  | Val _ => true
  | Raise _ => false
  end.

Definition router_of (x : Result RegRouter) : RegRouter :=
  match x with
  | Val rr => rr
  | Raise _ => New
  end.

(** The compiled form of a text of the fragment. *)
Definition compiled (text : string) : RE.t :=
  match RE.Compile_re text with
  | inl re => re
  | inr _ => {| RE.prog := RE.EmptyMatch; RE.numSubexp := 0; RE.subexpNames := [] |}
  end.

(** The routes that the example routers register. *)
Definition route_a (m : string) (text : string) (cors : bool) : Route :=
  {| method := m; regex := compiled "^/a$"; handler := say text; CORS := cors |}.

(** [GET /a] with CORS, then [POST /a] without. *)
Definition cors_get_then_post : Result RegRouter :=
  and_then (Add New "get" "/a" (say "one") true)
    (fun rr => Add rr "POST" "/a" (say "two") false).

(** A single [GET /a] without CORS. *)
Definition plain_get : Result RegRouter :=
  Add New "GET" "/a" (say "one") false.

(** [plain_get] with a route [POST /b] registered after it. *)
Definition plain_get_then_post_b : Result RegRouter :=
  Add (router_of plain_get) "POST" "/b" (say "two") false.

(** [GET /a] with CORS, then [PUT /a] without. *)
Definition cors_get_then_plain_put : Result RegRouter :=
  and_then (Add New "GET" "/a" (say "one") true)
    (fun rr => Add rr "PUT" "/a" (say "two") false).

(** [GET /a] and [POST /a], both with CORS. *)
Definition cors_get_and_post : Result RegRouter :=
  and_then (Add New "GET" "/a" (say "one") true)
    (fun rr => Add rr "POST" "/a" (say "two") true).

(** The user route of the round-trip example, registered without and with
    anchors of its own. *)
Definition users : Result RegRouter :=
  Add New "GET" "/users/(?P<id>[0-9]+)" (say "user") false.

Definition users_anchored : Result RegRouter :=
  Add New "GET" "^/users/(?P<id>[0-9]+)$" (say "user") false.

(** An optional unnamed group and a named one. *)
Definition optional_group : Result RegRouter :=
  Add New "GET" "/a(b)?(?P<tail>c*)" (say "a") false.

(** A pattern with an alternation at top level. *)
Definition a_or_b : Result RegRouter :=
  Add New "GET" "/a|/b" (say "a or b") false.

(** Static routes whose pattern has, and has not, a group named
    [filepath]. *)
Definition static_named : Result RegRouter :=
  Static New "/www" "/static/(?P<filepath>.*)".

Definition static_unnamed : Result RegRouter :=
  Static New "/www" "/static/(.*)".

(** A router whose route handler and whose 500 handler both panic. *)
Definition panicking_500 : RegRouter :=
  {| Routes := [];
     CTX := tt;
     RHandlers := {| Handlers_CORS := default_CORS;
                     ErrorCodes := <[500%Z := fun _ => boom "again"]>
                                     (ErrorCodes default_Handlers) |} |}.

Definition boom_route : Result RegRouter :=
  Add panicking_500 "GET" "/a" (boom "boom") false.

Definition boom_default : Result RegRouter :=
  Add New "GET" "/a" (boom "boom") false.

End Examples.

(** * The parameter store *)

Section ParamsFacts.
Context `{GoStrings}.

Lemma map_index_Set (m : gmap string string) (key value key' : string) :
  map_index {| Values := Some (<[key := value]> m) |} key'
  = if decide (key = key') then Some value else m !! key'.
Proof. unfold map_index; simpl. apply lookup_insert. Qed.

Lemma Params_Set_Some (p : Params) (m : gmap string string) (key value : string) :
  Values p = Some m →
  Params_Set p key value = Val (true, {| Values := Some (<[key := value]> m) |}).
Proof.
  intros Hm. unfold Params_Set. rewrite Hm.
  rewrite map_index_Set. by rewrite decide_True.
Qed.

Lemma Params_Set_nil (p : Params) (key value : string) :
  Values p = None → Params_Set p key value = Raise nil_map_assignment.
Proof. intros Hm. unfold Params_Set. by rewrite Hm. Qed.

Lemma Params_Get_default (p : Params) (key : string) :
  Params_Get p key = default "" (map_index p key).
Proof. unfold Params_Get. by destruct (map_index p key). Qed.

(** C7, as amended: on an absent key [GetE] fails with a message made of
    the quoted key, and [Get] returns the empty string; on a store whose
    map is initialised, [Set] returns true and a following [Get] of the
    same key returns the value that was set. *)
Theorem C7_accessors (p : Params) (key value : string) :
  (map_index p key = None →
     Params_GetE p key = ("", Some (Quote key +:+ ": no such param"))
     ∧ Params_Get p key = "")
  ∧ (Values p ≠ None →
     ∃ p', Params_Set p key value = Val (true, p')
           ∧ Params_Get p' key = value
           ∧ Params_GetE p' key = (value, None)).
Proof.
  split.
  - intros Habs. unfold Params_GetE, Params_Get. by rewrite Habs.
  - intros Hinit. destruct (Values p) as [m|] eqn:Hm; [|done].
    eexists. split; [by apply Params_Set_Some|].
    unfold Params_Get, Params_GetE. rewrite map_index_Set.
    by rewrite decide_True.
Qed.

(** C10: [Get] returns the same empty string for a key stored with the
    empty value and for an absent key, while [GetE] succeeds on the first
    and fails on the second. *)
Theorem C10_Get_conflates_empty_and_absent (s s' : Params) (k : string) :
  map_index s k = Some "" →
  map_index s' k = None →
  Params_Get s k = Params_Get s' k
  ∧ Params_Get s k = ""
  ∧ Params_GetE s k = ("", None)
  ∧ Params_GetE s' k = ("", Some (Quote k +:+ ": no such param")).
Proof.
  intros Hs Hs'. unfold Params_Get, Params_GetE. by rewrite Hs, Hs'.
Qed.

End ParamsFacts.

(** * Populating the store from a match *)

Section SetParamsFacts.
Context `{GoStrings} `{GoRegexp} `{GoFileServer}.

(** A decimal rendering starts with a digit. *)
Lemma Sprintf_d_head (n : nat) :
  ∃ c rest, Sprintf_d n = String c rest ∧ RE.is_digit c = true.
Proof.
  unfold Sprintf_d, NilZero.string_of_uint.
  destruct (Nat.to_uint n); simpl; eauto.
Qed.

Lemma param_key_named (i : nat) (name : string) :
  name ≠ "" → param_key i name = name.
Proof.
  intros Hne. unfold param_key. rewrite bool_decide_eq_false_2; [done|].
  destruct name; [done|simpl; lia].
Qed.

Lemma param_key_unnamed (i : nat) : param_key i "" = Sprintf_d i.
Proof. done. Qed.

(** A store that [set_params] returns was written on an initialised map. *)
Lemma set_params_spec (names matches : list string) :
  ∀ (i : nat) (m0 : gmap string string) (p : Params),
    set_params i names matches {| Values := Some m0 |} = Val p →
    (∀ k name, names !! k = Some name → is_Some (matches !! (i + k)))
    ∧ (∀ k name,
         names !! k = Some name →
         (∀ k' name', k < k' → names !! k' = Some name' →
                      param_key (i + k') name' ≠ param_key (i + k) name) →
         map_index p (param_key (i + k) name) = matches !! (i + k))
    ∧ (∀ key,
         (∀ k name, names !! k = Some name → param_key (i + k) name ≠ key) →
         map_index p key = m0 !! key)
    ∧ Values p ≠ None.
Proof.
  induction names as [|name names IH]; intros i m0 p Hrun; cbn [set_params] in Hrun.
  - inversion Hrun; subst. repeat split; try done.
  - destruct (matches !! i) as [m|] eqn:Hm; [|done].
    rewrite (Params_Set_Some _ m0) in Hrun by done.
    apply IH in Hrun as (Hlen & Hlast & Hother & Hinit).
    repeat split; [| | |done].
    + intros [|k] nm Hk; simpl in Hk.
      * rewrite Nat.add_0_r. by rewrite Hm.
      * replace (i + S k) with (S i + k) by lia. by eapply Hlen.
    + intros [|k] nm Hk Hlater; simpl in Hk.
      * inversion Hk; subst nm. rewrite Nat.add_0_r in *.
        rewrite Hother.
        -- rewrite lookup_insert_eq. by rewrite Hm.
        -- intros k' nm' Hk'. replace (S i + k') with (i + S k') by lia.
           apply (Hlater (S k') nm'); [lia|done].
      * replace (i + S k) with (S i + k) by lia.
        apply (Hlast k nm Hk). intros k' nm' Hlt Hk'.
        replace (S i + k') with (i + S k') by lia.
        replace (S i + k) with (i + S k) by lia.
        apply (Hlater (S k') nm'); [lia|done].
    + intros key Hfresh. rewrite Hother.
      * apply lookup_insert_ne. specialize (Hfresh 0 name eq_refl).
        by rewrite Nat.add_0_r in Hfresh.
      * intros k nm Hk. replace (S i + k) with (i + S k) by lia.
        by apply (Hfresh (S k) nm).
Qed.

(** [set_params] is the sequence of [Set] calls, one per group, in
    index order. *)
Lemma set_params_fold (names matches : list string) :
  ∀ (i : nat) (m0 : gmap string string) (p : Params),
    set_params i names matches {| Values := Some m0 |} = Val p →
    length names ≤ length matches - i
    ∧ Values p
      = Some (fold_left (λ m kv, <[kv.1 := kv.2]> m)
                (zip (imap (λ k, param_key (i + k)) names) (drop i matches)) m0).
Proof.
  induction names as [|name names IH]; intros i m0 p Hrun; cbn [set_params] in Hrun.
  - inversion Hrun; subst. split; [simpl; lia|done].
  - destruct (matches !! i) as [m|] eqn:Hm; [|done].
    rewrite (Params_Set_Some _ m0) in Hrun by done.
    apply IH in Hrun as [Hlen ->]. split.
    + apply lookup_lt_Some in Hm. cbn [length]. lia.
    + rewrite (drop_S _ _ _ Hm), imap_cons. cbn [zip_with fold_left fst snd].
      rewrite Nat.add_0_r. do 3 f_equal.
      apply imap_ext. intros k x _. simpl. f_equal. lia.
Qed.

Lemma set_params_in_order (names matches : list string) (p : Params) :
  set_params 0 names matches {| Values := Some ∅ |} = Val p →
  length names ≤ length matches
  ∧ Values p = Some (set_in_order names matches ∅).
Proof.
  intros [Hlen ->]%set_params_fold. split; [lia|].
  unfold set_in_order. by rewrite drop_0.
Qed.

(** With a match as long as the list of names, and an initialised map,
    [set_params] returns. *)
Lemma set_params_total (names matches : list string) :
  ∀ (i : nat) (m0 : gmap string string),
    i + length names ≤ length matches →
    ∃ p, set_params i names matches {| Values := Some m0 |} = Val p.
Proof.
  induction names as [|name names IH]; intros i m0 Hlen;
    cbn [set_params length] in *.
  - eauto.
  - destruct (lookup_lt_is_Some_2 matches i) as [m Hm]; [lia|].
    rewrite Hm. rewrite (Params_Set_Some _ m0) by done.
    apply IH. lia.
Qed.

(** No decimal index is the word [filepath]. *)
Lemma Sprintf_d_not_filepath (n : nat) : Sprintf_d n ≠ "filepath".
Proof.
  destruct (Sprintf_d_head n) as (c & rest & Heq & Hdigit).
  rewrite Heq. intros Hbad. inversion Hbad; subst c. discriminate Hdigit.
Qed.

(** A pattern without a group named [filepath] yields a store without the
    key [filepath]. *)
Lemma set_params_no_filepath (names matches : list string) (p : Params) :
  "filepath" ∉ names →
  set_params 0 names matches {| Values := Some ∅ |} = Val p →
  map_index p "filepath" = None.
Proof.
  intros Hnot Hrun.
  apply set_params_spec in Hrun as (_ & _ & Hother & _).
  rewrite Hother; [done|].
  intros k name Hk Hkey. simpl in Hkey.
  destruct (decide (name = "")) as [->|Hne].
  - rewrite param_key_unnamed in Hkey. by apply Sprintf_d_not_filepath in Hkey.
  - rewrite param_key_named in Hkey by done. subst name.
    apply Hnot. by eapply list_elem_of_lookup_2.
Qed.

End SetParamsFacts.

(** * The route loop *)

Section LoopFacts.
Context `{GoStrings} `{GoRegexp} `{GoFileServer}.
Implicit Types (rr : RegRouter) (r : Request) (route : Route)
  (routes pre post : list Route) (methods allowed : list string)
  (σ : World) (w : ResponseWriter).

Lemma matching_methods_nil r : matching_methods r [] = [].
Proof. done. Qed.

Lemma matching_methods_cons r route routes :
  matching_methods r (route :: routes)
  = (if matches_path r route then [method route] else [])
      ++ matching_methods r routes.
Proof.
  unfold matching_methods. rewrite filter_cons.
  destruct (matches_path r route); by case_decide.
Qed.

Lemma matching_methods_app r pre post :
  matching_methods r (pre ++ post) = matching_methods r pre ++ matching_methods r post.
Proof. unfold matching_methods. by rewrite filter_app, fmap_app. Qed.

(** A route that is not taken either does not match the path, or is a
    CORS route of another method. *)
Lemma not_taken_inv r route :
  taken r route = false →
  matches_path r route = false
  ∨ (matches_path r route = true ∧ CORS route = true ∧ method_matches r route = false).
Proof.
  unfold taken.
  destruct (matches_path r route), (CORS route), (method_matches r route);
    simpl; intros; try done; auto.
Qed.

(** The loop passes over routes that are not taken, adding the method of
    each one that matches the path to both lists. *)
Lemma route_loop_skip rr r pre :
  Forall (λ route, taken r route = false) pre →
  ∀ i post methods allowed params,
    route_loop rr r i (pre ++ post) methods allowed params
    = route_loop rr r (i + length pre) post
        (methods ++ matching_methods r pre) (allowed ++ matching_methods r pre) params.
Proof.
  induction 1 as [|route pre Hroute _ IH]; intros i post methods allowed params.
  - rewrite matching_methods_nil, !app_nil_r, Nat.add_0_r. done.
  - rewrite matching_methods_cons. cbn [app route_loop length].
    replace (i + S (length pre)) with (S i + length pre) by lia.
    apply not_taken_inv in Hroute as [Hno|(Hyes & Hcors & Hmeth)].
    + rewrite Hno. unfold matches_path in Hno. rewrite Hno. cbn [app]. apply IH.
    + rewrite Hyes. unfold matches_path in Hyes. unfold method_matches in Hmeth.
      rewrite Hyes, Hcors, Hmeth. cbn [negb app].
      rewrite IH. by rewrite <- !app_assoc.
Qed.

(** At a route that is taken the loop ends: the CORS writer is called if
    the route has the flag, then the route runs. *)
Lemma route_loop_taken rr r i route post methods allowed params :
  taken r route = true →
  route_loop rr r i (route :: post) methods allowed params
  = if CORS route then
      do! call_CORS rr (methods ++ [method route]) r then
      run_route rr r i route (FindStringSubmatch (regex route) (URL_Path r)) params
    else
      run_route rr r i route (FindStringSubmatch (regex route) (URL_Path r)) params.
Proof.
  unfold taken, matches_path, method_matches. intros Htaken.
  cbn [route_loop].
  destruct (bool_decide _); [|done].
  destruct (CORS route); [|done].
  destruct (EqualFold _ _); done.
Qed.

(** Every list of routes has a first taken route, or none. *)
Lemma first_taken r routes :
  Forall (λ route, taken r route = false) routes
  ∨ ∃ pre route post,
      routes = pre ++ route :: post
      ∧ Forall (λ route, taken r route = false) pre
      ∧ taken r route = true.
Proof.
  induction routes as [|x routes IH].
  - by left.
  - destruct (taken r x) eqn:Hx.
    + right. exists [], x, routes. by repeat split.
    + destruct IH as [Hnone|(pre & route & post & -> & Hpre & Htaken)].
      * left. by constructor.
      * right. exists (x :: pre), route, post. repeat split; [|done]. by constructor.
Qed.

(** The two ways the body of a dispatch goes. *)
Lemma Handler_body_cases rr r :
  (Forall (λ route, taken r route = false) (Routes rr)
   ∧ Handler_body rr r
     = no_dispatch rr r (matching_methods r (Routes rr)) (matching_methods r (Routes rr)))
  ∨ ∃ pre route post,
      Routes rr = pre ++ route :: post
      ∧ Forall (λ route, taken r route = false) pre
      ∧ taken r route = true
      ∧ Handler_body rr r
        = if CORS route then
            do! call_CORS rr (matching_methods r pre ++ [method route]) r then
            run_route rr r (length pre) route
              (FindStringSubmatch (regex route) (URL_Path r)) {| Values := Some ∅ |}
          else
            run_route rr r (length pre) route
              (FindStringSubmatch (regex route) (URL_Path r)) {| Values := Some ∅ |}.
Proof.
  unfold Handler_body.
  destruct (first_taken r (Routes rr)) as [Hnone|(pre & route & post & Heq & Hpre & Htaken)].
  - left. split; [done|].
    rewrite <- (app_nil_r (Routes rr)) at 1.
    by rewrite route_loop_skip.
  - right. exists pre, route, post. repeat split; try done.
    rewrite Heq, route_loop_skip by done.
    by rewrite route_loop_taken.
Qed.

(** ** The calls of each step *)

Lemma invoke_calls (c : Call) (f : ResponseWriter → Outcome) σ :
  calls (res_world (invoke c f σ)) = calls σ ++ [c].
Proof. unfold invoke. by destruct (f (writer σ)). Qed.

Lemma call_CORS_calls rr methods r σ :
  calls (res_world (call_CORS rr methods r σ)) = calls σ ++ [CallCORS methods].
Proof. apply invoke_calls. Qed.

Lemma call_ErrorCode_calls rr code data r σ :
  calls (res_world (call_ErrorCode rr code data r σ))
  = calls σ ++ [CallErrorCode code data].
Proof. apply invoke_calls. Qed.

Lemma run_route_calls rr r i route matches params σ :
  calls (res_world (run_route rr r i route matches params σ))
  = calls σ ++ match set_params 0 (SubexpNames (regex route)) matches params with
               | Val p => [CallRoute i p]
               | Raise _ => []
               end.
Proof.
  unfold run_route, bind, lift.
  destruct (set_params _ _ _ _); simpl.
  - apply invoke_calls.
  - by rewrite app_nil_r.
Qed.

Lemma no_dispatch_calls rr r methods σ :
  calls (res_world (no_dispatch rr r methods methods σ))
  = calls σ ++ [if bool_decide (0 < length methods) then CallCORS methods
                else CallErrorCode 404 ∅].
Proof.
  unfold no_dispatch. case_bool_decide.
  - unfold bind. pose proof (call_CORS_calls rr methods r σ) as Hc.
    destruct (call_CORS rr methods r σ); simpl in *; done.
  - apply call_ErrorCode_calls.
Qed.

(** The calls of the body: with no taken route, one call of the CORS
    writer or of the 404 handler; else the calls for the first taken
    route. *)
Lemma Handler_body_calls rr r w :
  (Forall (λ route, taken r route = false) (Routes rr)
   ∧ calls_of (Handler_body rr r (start w))
     = [if bool_decide (0 < length (matching_methods r (Routes rr)))
        then CallCORS (matching_methods r (Routes rr))
        else CallErrorCode 404 ∅])
  ∨ ∃ pre route post,
      Routes rr = pre ++ route :: post
      ∧ Forall (λ route, taken r route = false) pre
      ∧ taken r route = true
      ∧ ∃ route_calls,
          calls_of (Handler_body rr r (start w))
          = (if CORS route
             then [CallCORS (matching_methods r pre ++ [method route])]
             else []) ++ route_calls
          ∧ (route_calls = []
             ∨ ∃ p, route_calls = [CallRoute (length pre) p]
                    ∧ set_params 0 (SubexpNames (regex route))
                        (FindStringSubmatch (regex route) (URL_Path r))
                        {| Values := Some ∅ |} = Val p).
Proof.
  unfold calls_of.
  destruct (Handler_body_cases rr r)
    as [[Hnone ->]|(pre & route & post & Heq & Hpre & Htaken & ->)].
  - left. split; [done|]. by rewrite no_dispatch_calls.
  - right. exists pre, route, post. repeat split; try done.
    set (ms := FindStringSubmatch (regex route) (URL_Path r)).
    set (names := SubexpNames (regex route)).
    assert (∀ σ, ∃ route_calls,
               calls (res_world (run_route rr r (length pre) route ms
                                   {| Values := Some ∅ |} σ))
               = calls σ ++ route_calls
               ∧ (route_calls = []
                  ∨ ∃ p, route_calls = [CallRoute (length pre) p]
                         ∧ set_params 0 names ms {| Values := Some ∅ |} = Val p))
      as Hroute.
    { intros σ. rewrite run_route_calls. fold names.
      destruct (set_params 0 names ms _) as [p|v] eqn:Hset.
      - exists [CallRoute (length pre) p]. split; [done|]. right. by exists p.
      - exists []. split; [done|]. by left. }
    destruct (CORS route).
    + unfold bind.
      pose proof (call_CORS_calls rr (matching_methods r pre ++ [method route]) r
                    (start w)) as Hc.
      destruct (call_CORS rr _ r (start w)) as [[] σ'|v σ']; simpl in Hc |- *.
      * destruct (Hroute σ') as (route_calls & -> & Hshape).
        exists route_calls. by rewrite Hc.
      * exists []. rewrite Hc. split; [done|by left].
    + destruct (Hroute (start w)) as (route_calls & -> & Hshape).
      exists route_calls. done.
Qed.

End LoopFacts.

(** * Dispatch *)

Section DispatchFacts.
Context `{GoStrings} `{GoRegexp} `{GoFileServer}.
Implicit Types (rr : RegRouter) (r : Request) (route : Route)
  (routes pre post : list Route) (σ : World) (w : ResponseWriter) (p : Params).

(** The deferred function adds one call of the 500 handler when the body
    panicked, and nothing otherwise. *)
Lemma Handler_calls rr w r :
  calls_of (Handler rr w r)
  = calls_of (Handler_body rr r (start w))
      ++ match res_fault (Handler_body rr r (start w)) with
         | Some v => [CallErrorCode 500 {[ "exception" := v ]}]
         | None => []
         end.
Proof.
  unfold Handler, recover_500, calls_of, start.
  destruct (Handler_body rr r _) as [[] σ|v σ]; simpl.
  - by rewrite app_nil_r.
  - apply call_ErrorCode_calls.
Qed.

(** The body calls no status handler but the one for 404. *)
Lemma Handler_body_error_calls rr r w code data :
  CallErrorCode code data ∈ calls_of (Handler_body rr r (start w)) →
  code = 404%Z ∧ data = ∅.
Proof.
  destruct (Handler_body_calls rr r w)
    as [[_ ->]|(pre & route & post & _ & _ & _ & rc & -> & Hshape)].
  - intros Hin%list_elem_of_singleton. case_bool_decide; [done|].
    by inversion Hin.
  - rewrite elem_of_app. intros [Hin|Hin].
    + destruct (CORS route).
      * apply list_elem_of_singleton in Hin. done.
      * by apply elem_of_nil in Hin.
    + destruct Hshape as [->|(p & -> & _)].
      * by apply elem_of_nil in Hin.
      * apply list_elem_of_singleton in Hin. done.
Qed.

(** Dispatch never calls the 405 handler. *)
Lemma Handler_never_405 rr w r data :
  CallErrorCode 405 data ∉ calls_of (Handler rr w r).
Proof.
  rewrite Handler_calls, elem_of_app. intros [Hin|Hin].
  - by apply Handler_body_error_calls in Hin as [? _].
  - destruct (res_fault _).
    + apply list_elem_of_singleton in Hin. by inversion Hin.
    + by apply elem_of_nil in Hin.
Qed.

(** A call of a route handler in the log of a dispatch is the call for the
    first taken route, with the store set from its match, and it is the
    only call of a route handler. *)
Lemma route_call_inv rr w r j p :
  CallRoute j p ∈ calls_of (Handler rr w r) →
  ∃ pre route post,
    Routes rr = pre ++ route :: post
    ∧ j = length pre
    ∧ Forall (λ route, taken r route = false) pre
    ∧ taken r route = true
    ∧ set_params 0 (SubexpNames (regex route))
        (FindStringSubmatch (regex route) (URL_Path r)) {| Values := Some ∅ |} = Val p
    ∧ List.filter is_route_call (calls_of (Handler rr w r)) = [CallRoute j p].
Proof.
  rewrite Handler_calls.
  destruct (Handler_body_calls rr r w)
    as [[_ ->]|(pre & route & post & Heq & Hpre & Htaken & rc & -> & Hshape)].
  - rewrite elem_of_app. intros [Hin%list_elem_of_singleton|Hin].
    + by case_bool_decide.
    + destruct (res_fault _).
      * apply list_elem_of_singleton in Hin. done.
      * by apply elem_of_nil in Hin.
  - rewrite !elem_of_app. intros [[Hin|Hin]|Hin].
    + destruct (CORS route).
      * apply list_elem_of_singleton in Hin. done.
      * by apply elem_of_nil in Hin.
    + destruct Hshape as [->|(p' & -> & Hset)].
      * by apply elem_of_nil in Hin.
      * apply list_elem_of_singleton in Hin. inversion Hin; subst j p'.
        exists pre, route, post. repeat split; try done.
        rewrite !List.filter_app.
        destruct (CORS route), (res_fault _); done.
    + destruct (res_fault _).
      * apply list_elem_of_singleton in Hin. done.
      * by apply elem_of_nil in Hin.
Qed.

(** C1, as amended: a dispatch invokes at most one route handler, the
    pattern of the invoked route matches the path, and every
    earlier-registered route whose pattern also matches the path has a
    method that differs from the request's under [EqualFold].  An earlier
    matching route of the request's method thus keeps every later one from
    being invoked. *)
Theorem C1_dispatched_route_follows_only_other_methods rr w r j p :
  CallRoute j p ∈ calls_of (Handler rr w r) →
  List.filter is_route_call (calls_of (Handler rr w r)) = [CallRoute j p]
  ∧ (∃ route, Routes rr !! j = Some route ∧ matches_path r route = true)
  ∧ (∀ i route,
       i < j → Routes rr !! i = Some route → matches_path r route = true →
       method_matches r route = false).
Proof.
  intros (pre & route & post & Heq & -> & Hpre & Htaken & _ & Honly)%route_call_inv.
  split; [done|]. split.
  - exists route. split.
    + rewrite Heq. by apply list_lookup_middle.
    + unfold taken in Htaken. by destruct (matches_path r route).
  - intros i route' Hlt Hi Hmatch.
    rewrite Heq, lookup_app_l in Hi by done.
    rewrite Forall_lookup in Hpre. specialize (Hpre i route' Hi). simpl in Hpre.
    apply not_taken_inv in Hpre as [Hno|(_ & _ & Hmeth)]; [congruence|done].
Qed.


(** The body after a path that no pattern matches. *)
Lemma no_match_not_taken r routes :
  (∀ route, route ∈ routes → matches_path r route = false) →
  Forall (λ route, taken r route = false) routes ∧ matching_methods r routes = [].
Proof.
  intros Hno. split.
  - apply Forall_forall. intros route Hin. unfold taken. by rewrite Hno.
  - induction routes as [|route routes IH]; [done|].
    rewrite matching_methods_cons, Hno by left.
    apply IH. intros route' Hin. apply Hno. by right.
Qed.

(** C9: when no registered pattern matches the path, dispatch is one call
    of the 404 handler with an empty payload, inside the recovery of the
    deferred function: the log holds that call once, and no call of a route
    handler or of the CORS writer; when the 404 entry returns, its response
    is the response of the dispatch. *)
Theorem C9_no_match_calls_404 rr w r :
  (∀ route, route ∈ Routes rr → matches_path r route = false) →
  Handler rr w r = recover_500 rr r (call_ErrorCode rr 404 ∅ r (start w))
  ∧ List.filter (is_error_call 404) (calls_of (Handler rr w r)) = [CallErrorCode 404 ∅]
  ∧ (∀ c, c ∈ calls_of (Handler rr w r) → ∃ code data, c = CallErrorCode code data)
  ∧ (∀ (h : gmap string any → HandlerFunc) w',
       ErrorCodes (RHandlers rr) !! 404%Z = Some h →
       h ∅ w r = Returns w' →
       Handler rr w r = Ok tt {| writer := w'; calls := [CallErrorCode 404 ∅] |}).
Proof.
  intros Hno. apply no_match_not_taken in Hno as [Hnone Hmeth].
  assert (Handler_body rr r = call_ErrorCode rr 404 ∅ r) as Hbody.
  { destruct (Handler_body_cases rr r)
      as [[_ ->]|(pre & route & post & Heq & _ & Htaken & _)].
    - by rewrite Hmeth.
    - rewrite Forall_forall in Hnone. rewrite Hnone in Htaken; [done|].
      rewrite Heq. apply elem_of_app. right. by left. }
  assert (calls_of (Handler rr w r)
          = CallErrorCode 404 ∅ ::
              match res_fault (Handler_body rr r (start w)) with
              | Some v => [CallErrorCode 500 {[ "exception" := v ]}]
              | None => []
              end) as Hcalls.
  { rewrite Handler_calls. unfold calls_of at 1.
    by rewrite Hbody, call_ErrorCode_calls. }
  split; [unfold Handler; by rewrite Hbody|]. split; [|split].
  - rewrite Hcalls. by destruct (res_fault _).
  - rewrite Hcalls. intros c [->|Hin]%elem_of_cons; [eauto|].
    destruct (res_fault _).
    + apply list_elem_of_singleton in Hin as ->. eauto.
    + by apply elem_of_nil in Hin.
  - intros h w' Hh Hret. unfold Handler. rewrite Hbody.
    unfold call_ErrorCode, invoke, start. simpl. rewrite Hh. simpl. by rewrite Hret.
Qed.

End DispatchFacts.

(** * Faults, the CORS answer, registration *)

Section MoreDispatchFacts.
Context `{GoStrings} `{GoRegexp} `{GoFileServer}.
Implicit Types (rr : RegRouter) (r : Request) (route : Route)
  (routes pre post : list Route) (σ : World) (w : ResponseWriter) (p : Params).

Lemma filter_none {A} (f : A → bool) (l : list A) :
  (∀ x, x ∈ l → f x = false) → List.filter f l = [].
Proof.
  induction l as [|x l IH]; intros Hall; [done|].
  simpl. rewrite Hall by left. apply IH. intros y Hy. apply Hall. by right.
Qed.

(** C5, as amended: when the body of a dispatch panics and the bundle has
    an entry for 500, the deferred function calls that entry once, with the
    panic value under the key [exception], on the response as the panic
    left it; the log holds no other call of the 500 handler.  The dispatch
    returns when that entry returns, and panics with the entry's own panic
    value when the entry panics. *)
Theorem C5_fault_is_one_call_of_500 rr w r (v : any) σ
    (h500 : gmap string any → HandlerFunc) :
  Handler_body rr r (start w) = Fault v σ →
  ErrorCodes (RHandlers rr) !! 500%Z = Some h500 →
  List.filter (is_error_call 500) (calls_of (Handler rr w r))
    = [CallErrorCode 500 {[ "exception" := v ]}]
  ∧ (∀ w', h500 {[ "exception" := v ]} (writer σ) r = Returns w' →
           Handler rr w r
           = Ok tt {| writer := w';
                      calls := calls σ ++ [CallErrorCode 500 {[ "exception" := v ]}] |})
  ∧ (∀ v' w', h500 {[ "exception" := v ]} (writer σ) r = Panics v' w' →
              Handler rr w r
              = Fault v' {| writer := w';
                            calls := calls σ ++ [CallErrorCode 500 {[ "exception" := v ]}] |}).
Proof.
  intros Hbody H500. split; [|split].
  - rewrite Handler_calls, Hbody. simpl.
    rewrite List.filter_app, filter_none; [done|].
    intros [ | |code data] Hin; try done.
    change (calls σ) with (calls_of (Fault (A:=unit) v σ)) in Hin.
    rewrite <- Hbody in Hin.
    apply Handler_body_error_calls in Hin as [-> _]. done.
  - intros w' Hret. unfold Handler. unfold start in Hbody. rewrite Hbody. simpl.
    unfold call_ErrorCode, invoke. rewrite H500. simpl. by rewrite Hret.
  - intros v' w' Hpanic. unfold Handler. unfold start in Hbody. rewrite Hbody. simpl.
    unfold call_ErrorCode, invoke. rewrite H500. simpl. by rewrite Hpanic.
Qed.

(** When every route that matches the path is a CORS route of another
    method, and there is one, dispatch calls the CORS writer with the
    methods of the matching routes in registration order and writes 204;
    the default writer puts the joined methods in
    [Access-Control-Allow-Methods]. *)
Lemma cors_only_no_content rr w r :
  (∀ route, route ∈ Routes rr → matches_path r route = true →
            CORS route = true ∧ method_matches r route = false) →
  (∃ route, route ∈ Routes rr ∧ matches_path r route = true) →
  Handler rr w r
  = recover_500 rr r
      ((do! call_CORS rr (matching_methods r (Routes rr)) r then
        modify (WriteHeader 204)) (start w))
  ∧ (Handlers_CORS (RHandlers rr) = default_CORS →
     ∃ w', Handler rr w r
           = Ok tt {| writer := WriteHeader 204 w';
                      calls := [CallCORS (matching_methods r (Routes rr))] |}
           ∧ Header w' !! "Access-Control-Allow-Methods"
             = Some (Join (matching_methods r (Routes rr)) ", ")
           ∧ status w' = status w ∧ body w' = body w).
Proof.
  intros Hall (route0 & Hin0 & Hmatch0).
  assert (Forall (λ route, taken r route = false) (Routes rr)) as Hnone.
  { apply Forall_forall. intros route Hin. unfold taken.
    destruct (matches_path r route) eqn:Hm; [|done].
    destruct (Hall route Hin Hm) as [-> ->]. done. }
  assert (0 < length (matching_methods r (Routes rr))) as Hlen.
  { apply list_elem_of_split in Hin0 as (l1 & l2 & ->).
    rewrite matching_methods_app, matching_methods_cons, Hmatch0.
    rewrite !length_app. simpl. lia. }
  assert (Handler_body rr r
          = (do! call_CORS rr (matching_methods r (Routes rr)) r then
             modify (WriteHeader 204))) as Hbody.
  { destruct (Handler_body_cases rr r)
      as [[_ ->]|(pre & route & post & Heq & _ & Htaken & _)].
    - unfold no_dispatch. by rewrite bool_decide_eq_true_2.
    - rewrite Forall_forall in Hnone. rewrite Hnone in Htaken; [done|].
      rewrite Heq. apply elem_of_app. right. by left. }
  split; [unfold Handler; by rewrite Hbody|].
  intros Hdefault. eexists. split; [|split; [|split]].
  - unfold Handler. rewrite Hbody.
    unfold bind, call_CORS, invoke, modify, start. simpl.
    rewrite Hdefault. simpl. reflexivity.
  - simpl. rewrite lookup_insert_ne by done. rewrite lookup_insert_ne by done.
    by rewrite lookup_insert_eq.
  - done.
  - done.
Qed.

Lemma Header_WriteHeader (code : Z) w : Header (WriteHeader code w) = Header w.
Proof. unfold WriteHeader. by destruct (status w). Qed.

Lemma Header_Write (data : string) w : Header (Write data w) = Header w.
Proof. unfold Write. cbn [Header]. apply Header_WriteHeader. Qed.

Lemma Header_http_Error w (error : string) (code : Z) (key : string) :
  key ≠ "Content-Type" → key ≠ "X-Content-Type-Options" →
  Header (http_Error w error code) !! key = Header w !! key.
Proof.
  intros Hct Hxc. unfold http_Error.
  rewrite Header_Write, Header_WriteHeader. unfold Header_Set. cbn [Header].
  by rewrite !lookup_insert_ne.
Qed.

(** The default 405 handler, called with a list of methods, puts it in the
    [Allow] header. *)
Lemma default_405_sets_Allow (allowed : string) w r :
  ∃ w', default_405 {[ "allowed" := AString allowed ]} w r = Returns w'
        ∧ Header w' !! "Allow" = Some allowed.
Proof.
  unfold default_405. rewrite lookup_singleton_eq. cbn [assert_string].
  eexists. split; [reflexivity|].
  rewrite Header_http_Error by done.
  unfold Header_Set. cbn [Header]. apply lookup_insert_eq.
Qed.

(** What [Add] stores. *)
Lemma Add_appends_anchored rr (m pattern : string) (h : HandlerFunc) (cors : bool) rr' :
  Add rr m pattern h cors = Val rr' →
  ∃ re,
    Compile ("^" +:+ pattern +:+ "$") = inl re
    ∧ Routes rr' = Routes rr ++ [ {| method := ToUpper m; regex := re;
                                     handler := h; CORS := cors |} ]
    ∧ RHandlers rr' = RHandlers rr.
Proof.
  unfold Add, MustCompile. destruct (Compile _) as [re|err]; [|done].
  intros Heq. inversion Heq; subst. by exists re.
Qed.


(** The store that dispatch hands to a route whose pattern has no group
    named [filepath] makes the handler of [Static] return with the response
    as it found it. *)
Lemma Static_handler_without_filepath_group rr w r j p route rr0 (path : string) w' :
  CallRoute j p ∈ calls_of (Handler rr w r) →
  Routes rr !! j = Some route →
  "filepath" ∉ SubexpNames (regex route) →
  Static_handler rr0 path w' (WithContext r p) = Returns w'.
Proof.
  intros (pre & route0 & post & Heq & -> & _ & _ & Hset & _)%route_call_inv Hroute Hnot.
  rewrite Heq, list_lookup_middle in Hroute by done.
  inversion Hroute; subst route0.
  apply set_params_no_filepath in Hset; [|done].
  unfold Static_handler, RegRouter_Params, Params_GetE. simpl. by rewrite Hset.
Qed.

End MoreDispatchFacts.

(** * The matcher and the anchors *)

Section REFacts.

Lemma reached_here pos rest cs k res : k pos rest cs = Some res → reached pos rest cs k res.
Proof. intros Hk. by exists pos, rest, cs. Qed.

Lemma reached_step pos rest cs pos1 rest1 cs1 k res :
  pos1 + length rest1 = pos + length rest →
  length cs1 = length cs →
  reached pos1 rest1 cs1 k res → reached pos rest cs k res.
Proof.
  intros Hpos Hcs (pos' & rest' & cs' & Hk & Hpos' & Hcs').
  exists pos', rest', cs'. split; [done|]. split; congruence.
Qed.

Lemma orelse_Some x y res :
  RE.orelse x y = Some res → x = Some res ∨ (x = None ∧ y tt = Some res).
Proof. destruct x; simpl; intros; [left; congruence|by right]. Qed.

Lemma repeat_loop_reaches greedy step k :
  (∀ pos rest cs k' res, step pos rest cs k' = Some res → reached pos rest cs k' res) →
  ∀ n pos rest cs res,
    RE.repeat_loop greedy step k n pos rest cs = Some res → reached pos rest cs k res.
Proof.
  intros Hstep. induction n as [|n IH]; intros pos rest cs res Hrun; simpl in Hrun.
  - by apply reached_here.
  - assert (step pos rest cs
              (λ pos' rest' cs',
                 if Nat.eqb pos' pos then None
                 else RE.repeat_loop greedy step k n pos' rest' cs') = Some res
            → reached pos rest cs k res) as Hagain.
    { intros (pos1 & rest1 & cs1 & Hnext & Hpos & Hcs)%Hstep.
      destruct (Nat.eqb pos1 pos); [done|].
      apply IH in Hnext. by eapply reached_step. }
    destruct greedy; apply orelse_Some in Hrun as [Hfirst|[_ Hsecond]];
      auto using reached_here.
Qed.

Lemma run_reaches (r : RE.re) :
  ∀ pos rest cs k res, RE.run r pos rest cs k = Some res → reached pos rest cs k res.
Proof.
  induction r as [ |c| |negated ranges| | |a IHa b IHb|a IHa b IHb
                 |greedy a IHa|greedy a IHa|greedy a IHa|index name a IHa];
    intros pos rest cs k res Hrun; cbn [RE.run] in Hrun.
  - by apply reached_here.
  - destruct rest as [|c' rest']; [done|]. destruct (Ascii.eqb c c'); [|done].
    apply reached_here in Hrun. eapply reached_step; [| |exact Hrun]; simpl; lia.
  - destruct rest as [|c' rest']; [done|]. destruct (Ascii.eqb c' _); [done|].
    apply reached_here in Hrun. eapply reached_step; [| |exact Hrun]; simpl; lia.
  - destruct rest as [|c' rest']; [done|]. destruct (RE.in_class _ _ _); [|done].
    apply reached_here in Hrun. eapply reached_step; [| |exact Hrun]; simpl; lia.
  - destruct (Nat.eqb pos 0); [|done]. by apply reached_here.
  - destruct rest; [|done]. by apply reached_here.
  - apply IHa in Hrun as (pos1 & rest1 & cs1 & Hb & Hpos & Hcs).
    apply IHb in Hb. by eapply reached_step.
  - apply orelse_Some in Hrun as [Ha|[_ Hb]]; [by apply IHa|by apply IHb].
  - by eapply repeat_loop_reaches.
  - apply IHa in Hrun as (pos1 & rest1 & cs1 & Hloop & Hpos & Hcs).
    eapply repeat_loop_reaches in Hloop; [|done]. by eapply reached_step.
  - destruct greedy; apply orelse_Some in Hrun as [Hfirst|[_ Hsecond]];
      auto using reached_here.
  - apply IHa in Hrun as (pos1 & rest1 & cs1 & Hk & Hpos & Hcs).
    exists pos1, rest1, (<[index := Some (pos, pos1)]> cs1).
    split; [exact Hk|]. split; [exact Hpos|]. rewrite <- Hcs. apply length_insert.
Qed.

(** An expression between the two anchors matches the whole text or
    nothing. *)
Lemma anchored_search (a : RE.re) (n : nat) :
  ∀ pos rest cs,
    RE.search (RE.Concat RE.BeginText (RE.Concat a RE.EndText)) n pos rest = Some cs →
    pos = 0 ∧ cs !! 0 = Some (Some (0, length rest)).
Proof.
  intros pos rest. revert pos. induction rest as [|c rest IH]; intros pos cs Hsearch;
    cbn [RE.search RE.run] in Hsearch.
  - destruct (Nat.eqb pos 0) eqn:Hpos.
    + apply Nat.eqb_eq in Hpos as ->.
      destruct (RE.run a 0 [] _ _) as [cs'|] eqn:Hrun; [|done].
      inversion Hsearch; subst cs'.
      apply run_reaches in Hrun as (pos1 & rest1 & cs1 & Hend & Hlen & Hcs).
      cbn [RE.run] in Hend. destruct rest1; [|done]. inversion Hend; subst cs.
      split; [done|]. simpl in Hlen. rewrite Nat.add_0_r in Hlen. subst pos1.
      apply list_lookup_insert_eq. rewrite Hcs, length_replicate. lia.
    + done.
  - destruct (Nat.eqb pos 0) eqn:Hpos.
    + apply Nat.eqb_eq in Hpos as ->.
      destruct (RE.run a 0 (c :: rest) _ _) as [cs'|] eqn:Hrun.
      * inversion Hsearch; subst cs'.
        apply run_reaches in Hrun as (pos1 & rest1 & cs1 & Hend & Hlen & Hcs).
        cbn [RE.run] in Hend. destruct rest1; [|done]. inversion Hend; subst cs.
        split; [done|]. simpl in Hlen. rewrite Nat.add_0_r in Hlen. subst pos1.
        apply list_lookup_insert_eq. rewrite Hcs, length_replicate. lia.
      * apply IH in Hsearch as [? _]. done.
    + apply IH in Hsearch as [? _]. done.
Qed.

Lemma substring_all (s : string) : substring 0 (String.length s) s = s.
Proof. induction s as [|c s IH]; simpl; [done|by rewrite IH]. Qed.

Lemma length_list_ascii (s : string) : length (list_ascii_of_string s) = String.length s.
Proof. induction s as [|c s IH]; simpl; [done|by rewrite IH]. Qed.

(** With the pattern as one operand between the anchors, a match is a match
    of the whole text. *)
Lemma anchored_match_is_whole (x : RE.t) (a : RE.re) (s : string) :
  RE.prog x = RE.Concat RE.BeginText (RE.Concat a RE.EndText) →
  0 < length (RE.FindStringSubmatch_re x s) →
  RE.FindStringSubmatch_re x s !! 0 = Some s.
Proof.
  intros Hprog. unfold RE.FindStringSubmatch_re. rewrite Hprog.
  destruct (RE.search _ _ _ _) as [cs|] eqn:Hsearch; [|simpl; lia].
  intros _. apply anchored_search in Hsearch as [_ Hwhole].
  rewrite list_lookup_fmap. unfold RE.caps in *. rewrite Hwhole. simpl.
  by rewrite Nat.sub_0_r, length_list_ascii, substring_all.
Qed.
End REFacts.

(** * The examples, evaluated *)

Section Evaluated.
#[local] Existing Instance ascii_strings.
#[local] Existing Instance re_regexp.
#[local] Existing Instance echo_file_server.

Lemma Val_router_of (x : Result RegRouter) : is_Val x = true → x = Val (router_of x).
Proof. by destruct x. Qed.

Lemma Forall_forallb {A} (f : A → bool) (l : list A) :
  forallb f l = true → ∀ x, x ∈ l → f x = true.
Proof.
  intros Hall x Hin. rewrite forallb_forall in Hall.
  apply Hall. by apply list_elem_of_In.
Qed.

(** ** The parameter store *)

(** On the zero value of [Params], whose map is nil, [Set] panics; no store
    comes back from it. *)
Lemma C7_counterexample_Set_on_nil_map :
  ¬ ∃ p', Params_Set {| Values := None |} "k" "v" = Val (true, p')
          ∧ Params_Get p' "k" = "v".
Proof. intros (p' & Hset & _). discriminate Hset. Qed.

(** The accessors on the empty store and the key [id]. *)
Lemma C7_witness :
  (Params_GetE {| Values := Some ∅ |} "id" = ("", Some (Quote "id" +:+ ": no such param"))
   ∧ Params_Get {| Values := Some ∅ |} "id" = "")
  ∧ ∃ p', Params_Set {| Values := Some ∅ |} "id" "42" = Val (true, p')
          ∧ Params_Get p' "id" = "42"
          ∧ Params_GetE p' "id" = ("42", None).
Proof.
  destruct (C7_accessors {| Values := Some ∅ |} "id" "42") as [Habsent Hset].
  split.
  - apply Habsent. reflexivity.
  - apply Hset. simpl. discriminate.
Defined.

(** A store that maps [k] to the empty string, and the zero value. *)
Lemma C10_witness :
  Params_Get {| Values := Some {[ "k" := "" ]} |} "k" = Params_Get {| Values := None |} "k"
  ∧ Params_Get {| Values := Some {[ "k" := "" ]} |} "k" = ""
  ∧ Params_GetE {| Values := Some {[ "k" := "" ]} |} "k" = ("", None)
  ∧ Params_GetE {| Values := None |} "k" = ("", Some (Quote "k" +:+ ": no such param")).
Proof.
  apply C10_Get_conflates_empty_and_absent.
  - vm_compute. reflexivity.
  - reflexivity.
Defined.

(** The message of [GetE] on printable ASCII keys shows the key between
    double quotes. *)
Example GetE_message :
  Params_GetE {| Values := Some ∅ |} "id"
  = ("", Some (String "034" ("id" +:+ String "034" ": no such param"))).
Proof. reflexivity. Qed.

(** ** Precedence *)

(** Both routes of [cors_get_then_post] match the path [/a]; on a [POST]
    the handler invoked is the one registered second. *)
Lemma C1_counterexample_second_route_invoked :
  is_Val cors_get_then_post = true
  ∧ matches_path (request "POST" "/a") <$> Routes (router_of cors_get_then_post)
    = [true; true]
  ∧ calls_of (Handler (router_of cors_get_then_post) blank (request "POST" "/a"))
    = [CallRoute 1 {| Values := Some {[ "0" := "/a" ]} |}]
  ∧ body (writer (res_world
       (Handler (router_of cors_get_then_post) blank (request "POST" "/a")))) = "two".
Proof. repeat split; vm_compute; reflexivity. Qed.

(** The same dispatch: the route invoked is the second one, and the first
    one, which matches the path too, has another method. *)
Lemma C1_witness :
  CallRoute 1 {| Values := Some {[ "0" := "/a" ]} |}
    ∈ calls_of (Handler (router_of cors_get_then_post) blank (request "POST" "/a"))
  ∧ (List.filter is_route_call
       (calls_of (Handler (router_of cors_get_then_post) blank (request "POST" "/a")))
     = [CallRoute 1 {| Values := Some {[ "0" := "/a" ]} |}]
     ∧ (∃ route, Routes (router_of cors_get_then_post) !! 1 = Some route
                 ∧ matches_path (request "POST" "/a") route = true)
     ∧ (∀ i route,
          i < 1 → Routes (router_of cors_get_then_post) !! i = Some route →
          matches_path (request "POST" "/a") route = true →
          method_matches (request "POST" "/a") route = false)).
Proof.
  assert (CallRoute 1 {| Values := Some {[ "0" := "/a" ]} |}
            ∈ calls_of (Handler (router_of cors_get_then_post) blank
                          (request "POST" "/a"))) as Hcall.
  { vm_compute. left. }
  split; [exact Hcall|].
  exact (C1_dispatched_route_follows_only_other_methods _ _ _ _ _ Hcall).
Defined.

(** ** Method not allowed *)

(** C2, on the code: [plain_get] has one route, [GET /a] without CORS.  A
    [POST /a] matches its pattern and no CORS route; the dispatch runs the
    [GET] handler and answers 200, with no call of the 405 handler and no
    [Allow] header. *)
Theorem C2_wrong_method_runs_the_route :
  is_Val plain_get = true
  ∧ (λ route, (matches_path (request "POST" "/a") route,
               method_matches (request "POST" "/a") route, CORS route))
      <$> Routes (router_of plain_get) = [(true, false, false)]
  ∧ Handler (router_of plain_get) blank (request "POST" "/a")
    = Ok tt {| writer := {| Header := ∅; status := Some 200%Z; body := "one" |};
               calls := [CallRoute 0 {| Values := Some {[ "0" := "/a" ]} |}] |}.
Proof. repeat split; vm_compute; reflexivity. Qed.

(** ** The CORS answer *)

(** C3, on the code: in [cors_get_then_plain_put] a CORS route [GET /a]
    and a route [PUT /a] without CORS match the path of a [POST /a], and
    neither has the request's method; the dispatch runs the [PUT] handler
    and answers 200 without any CORS header, instead of 204. *)
Theorem C3_plain_route_preempts_no_content :
  is_Val cors_get_then_plain_put = true
  ∧ (λ route, (matches_path (request "POST" "/a") route,
               method_matches (request "POST" "/a") route, CORS route))
      <$> Routes (router_of cors_get_then_plain_put)
    = [(true, false, true); (true, false, false)]
  ∧ Handler (router_of cors_get_then_plain_put) blank (request "POST" "/a")
    = Ok tt {| writer := {| Header := ∅; status := Some 200%Z; body := "two" |};
               calls := [CallRoute 1 {| Values := Some {[ "0" := "/a" ]} |}] |}.
Proof. repeat split; vm_compute; reflexivity. Qed.

(** With CORS routes only, the answer is 204 and the methods are listed
    once per matching route. *)
Example cors_routes_answer_no_content :
  is_Val cors_get_and_post = true
  ∧ calls_of (Handler (router_of cors_get_and_post) blank (request "PUT" "/a"))
    = [CallCORS ["GET"; "POST"]]
  ∧ status (writer (res_world
      (Handler (router_of cors_get_and_post) blank (request "PUT" "/a")))) = Some 204%Z
  ∧ Header (writer (res_world
      (Handler (router_of cors_get_and_post) blank (request "PUT" "/a"))))
      !! "Access-Control-Allow-Methods" = Some "GET, POST".
Proof. repeat split; vm_compute; reflexivity. Qed.

(** ** The store of a dispatched route *)


(** A group that takes no part in the match is stored with the empty
    text; an unnamed group is stored under its index. *)
Example optional_group_is_empty :
  is_Val optional_group = true
  ∧ calls_of (Handler (router_of optional_group) blank (request "GET" "/a"))
    = [CallRoute 0 {| Values := Some {[ "0" := "/a"; "1" := ""; "tail" := "" ]} |}]
  ∧ calls_of (Handler (router_of optional_group) blank (request "GET" "/abcc"))
    = [CallRoute 0 {| Values := Some {[ "0" := "/abcc"; "1" := "b"; "tail" := "cc" ]} |}].
Proof. repeat split; vm_compute; reflexivity. Qed.

(** The round trip of the specification, with the pattern as registered
    with [Add] and with anchors of its own. *)
Example users_round_trip :
  is_Val users = true
  ∧ is_Val users_anchored = true
  ∧ calls_of (Handler (router_of users) blank (request "GET" "/users/42"))
    = [CallRoute 0 {| Values := Some {[ "0" := "/users/42"; "id" := "42" ]} |}]
  ∧ calls_of (Handler (router_of users_anchored) blank (request "GET" "/users/42"))
    = [CallRoute 0 {| Values := Some {[ "0" := "/users/42"; "id" := "42" ]} |}]
  ∧ calls_of (Handler (router_of users) blank (request "GET" "/users/42/x"))
    = [CallErrorCode 404 ∅].
Proof. repeat split; vm_compute; reflexivity. Qed.

(** ** No match *)

(** A [GET /b] on a router whose only pattern is [/a], with the default
    404 handler. *)
Lemma C9_witness :
  List.filter (is_error_call 404)
    (calls_of (Handler (router_of plain_get) blank (request "GET" "/b")))
  = [CallErrorCode 404 ∅]
  ∧ Handler (router_of plain_get) blank (request "GET" "/b")
    = Ok tt {| writer := http_Error blank ("404 - Not Found" +:+ String "010" "") 404;
               calls := [CallErrorCode 404 ∅] |}.
Proof.
  assert (∀ route, route ∈ Routes (router_of plain_get) →
                   matches_path (request "GET" "/b") route = false) as Hno.
  { intros route Hin. apply negb_true_iff. revert route Hin.
    apply Forall_forallb. vm_compute. reflexivity. }
  destruct (C9_no_match_calls_404 _ blank _ Hno) as (_ & Honce & _ & Hreturns).
  split; [exact Honce|].
  apply (Hreturns default_404); reflexivity.
Defined.

(** ** Faults *)

(** The router [boom_route] has an entry for 500 that panics.  Its route
    handler panics with ["boom"]; the dispatch ends in a panic with
    ["again"], which its caller observes. *)
Lemma C5_counterexample_500_entry_panics :
  is_Val boom_route = true
  ∧ match ErrorCodes (RHandlers (router_of boom_route)) !! 500%Z with
    | Some _ => true
    | None => false
    end = true
  ∧ res_fault (Handler_body (router_of boom_route) (request "GET" "/a") (start blank))
    = Some (AString "boom")
  ∧ List.filter (is_error_call 500)
      (calls_of (Handler (router_of boom_route) blank (request "GET" "/a")))
    = [CallErrorCode 500 {[ "exception" := AString "boom" ]}]
  ∧ res_fault (Handler (router_of boom_route) blank (request "GET" "/a"))
    = Some (AString "again").
Proof. repeat split; vm_compute; reflexivity. Qed.

(** A panicking route handler under the default bundle. *)
Lemma C5_witness :
  List.filter (is_error_call 500)
    (calls_of (Handler (router_of boom_default) blank (request "GET" "/a")))
  = [CallErrorCode 500 {[ "exception" := AString "boom" ]}]
  ∧ Handler (router_of boom_default) blank (request "GET" "/a")
    = Ok tt
        {| writer :=
             http_Error blank
               ("500 - Internal Server Error (Exception: boom)" +:+ String "010" "") 500;
           calls := [CallRoute 0 {| Values := Some {[ "0" := "/a" ]} |};
                     CallErrorCode 500 {[ "exception" := AString "boom" ]}] |}.
Proof.
  assert (Handler_body (router_of boom_default) (request "GET" "/a") (start blank)
          = Fault (AString "boom")
              {| writer := blank;
                 calls := [CallRoute 0 {| Values := Some {[ "0" := "/a" ]} |}] |})
    as Hbody.
  { vm_compute. reflexivity. }
  assert (ErrorCodes (RHandlers (router_of boom_default)) !! 500%Z = Some default_500)
    as H500.
  { reflexivity. }
  destruct (C5_fault_is_one_call_of_500 _ _ _ _ _ _ Hbody H500) as (Honce & Hreturns & _).
  split; [exact Honce|].
  apply Hreturns. reflexivity.
Defined.

(** The response of the default 500 handler. *)
Example default_500_response :
  status (writer (res_world (Handler (router_of boom_default) blank (request "GET" "/a"))))
  = Some 500%Z
  ∧ body (writer (res_world (Handler (router_of boom_default) blank (request "GET" "/a"))))
    = "500 - Internal Server Error (Exception: boom)" +:+ String "010" (String "010" "").
Proof. split; vm_compute; reflexivity. Qed.

(** ** Anchoring *)

(** C6, on the code: [Add] compiles the text [^/a|/b$] for the pattern
    [/a|/b]; the anchors bind to one alternative each.  The path [/ax],
    which the pattern does not match as a whole, is dispatched to the
    route on its prefix [/a], and the path [x/b] on its suffix [/b]; with
    the alternation in a group of its own neither path matches. *)
Theorem C6_alternation_escapes_the_anchors :
  is_Val a_or_b = true
  ∧ calls_of (Handler (router_of a_or_b) blank (request "GET" "/ax"))
    = [CallRoute 0 {| Values := Some {[ "0" := "/a" ]} |}]
  ∧ calls_of (Handler (router_of a_or_b) blank (request "GET" "x/b"))
    = [CallRoute 0 {| Values := Some {[ "0" := "/b" ]} |}]
  ∧ and_then (MustCompile "^(?:/a|/b)$")
      (λ re, Val (FindStringSubmatch re "/ax", FindStringSubmatch re "x/b",
                  FindStringSubmatch re "/a", FindStringSubmatch re "/b"))
    = Val ([], [], ["/a"], ["/b"]).
Proof. repeat split; vm_compute; reflexivity. Qed.

(** How the two texts parse: the anchors are operands of one alternative
    each, unless the alternation is grouped. *)
Example anchors_and_alternation :
  RE.Compile_re "^/a|/b$"
  = inl {| RE.prog :=
             RE.Alternate
               (RE.Concat RE.BeginText (RE.Concat (RE.Literal "/") (RE.Literal "a")))
               (RE.Concat (RE.Literal "/") (RE.Concat (RE.Literal "b") RE.EndText));
           RE.numSubexp := 0;
           RE.subexpNames := [""] |}
  ∧ RE.Compile_re "^(?:/a|/b)$"
    = inl {| RE.prog :=
               RE.Concat RE.BeginText
                 (RE.Concat
                    (RE.Alternate (RE.Concat (RE.Literal "/") (RE.Literal "a"))
                                  (RE.Concat (RE.Literal "/") (RE.Literal "b")))
                    RE.EndText);
             RE.numSubexp := 0;
             RE.subexpNames := [""] |}.
Proof. split; vm_compute; reflexivity. Qed.

(** ** Static files *)


(** A static route whose pattern has no group named [filepath] leaves the
    response untouched; with the group, the file server answers. *)
Example static_dispatch :
  Handler (router_of static_unnamed) blank (request "GET" "/static/x.css")
  = Ok tt {| writer := blank;
             calls := [CallRoute 0 {| Values := Some {[ "0" := "/static/x.css";
                                                        "1" := "x.css" ]} |}] |}
  ∧ Handler (router_of static_named) blank (request "GET" "/static/x.css")
    = Ok tt {| writer := {| Header := ∅; status := Some 200%Z; body := "/www/x.css" |};
               calls := [CallRoute 0 {| Values := Some {[ "0" := "/static/x.css";
                                                          "filepath" := "x.css" ]} |}] |}.
Proof. split; vm_compute; reflexivity. Qed.

End Evaluated.

(** * Further properties of dispatch *)

Section DispatchShape.
Context `{GoStrings} `{GoRegexp} `{GoFileServer}.
Implicit Types (rr : RegRouter) (r : Request) (route : Route)
  (routes pre post : list Route) (σ : World) (w : ResponseWriter) (p : Params).

Lemma all_passed_Forall r routes :
  all_passed r routes = true → Forall (λ route, taken r route = false) routes.
Proof.
  unfold all_passed. induction routes as [|route routes IH]; simpl; [by constructor|].
  intros [Hroute Hrest]%andb_true_iff. constructor; [|by apply IH].
  by apply negb_true_iff.
Qed.

(** With a match that has an entry for every group, the loop over the names
    returns the store of the match. *)
Lemma set_params_match_store r route :
  length (SubexpNames (regex route))
    ≤ length (FindStringSubmatch (regex route) (URL_Path r)) →
  set_params 0 (SubexpNames (regex route))
    (FindStringSubmatch (regex route) (URL_Path r)) {| Values := Some ∅ |}
  = Val (match_store r route).
Proof.
  intros Hlen.
  destruct (set_params_total (SubexpNames (regex route))
              (FindStringSubmatch (regex route) (URL_Path r)) 0 ∅) as [p Hp]; [lia|].
  rewrite Hp. destruct (set_params_in_order _ _ _ Hp) as [_ Hvalues].
  destruct p as [values]. simpl in Hvalues. by rewrite Hvalues.
Qed.

Lemma run_route_match_store rr r i route σ :
  length (SubexpNames (regex route))
    ≤ length (FindStringSubmatch (regex route) (URL_Path r)) →
  run_route rr r i route (FindStringSubmatch (regex route) (URL_Path r))
    {| Values := Some ∅ |} σ
  = invoke (CallRoute i (match_store r route))
      (λ w', handler route w' (WithContext r (match_store r route))) σ.
Proof.
  intros Hlen. unfold run_route, bind, lift. by rewrite set_params_match_store.
Qed.

(** The body of a dispatch whose first taken route is given. *)
Lemma Handler_body_at rr r pre route post :
  Routes rr = pre ++ route :: post →
  all_passed r pre = true →
  taken r route = true →
  Handler_body rr r
  = if CORS route then
      do! call_CORS rr (matching_methods r pre ++ [method route]) r then
      run_route rr r (length pre) route
        (FindStringSubmatch (regex route) (URL_Path r)) {| Values := Some ∅ |}
    else
      run_route rr r (length pre) route
        (FindStringSubmatch (regex route) (URL_Path r)) {| Values := Some ∅ |}.
Proof.
  intros Heq Hpre%all_passed_Forall Htaken. unfold Handler_body.
  rewrite Heq, route_loop_skip by done. by rewrite route_loop_taken.
Qed.

(** X1: whatever the router and the request, every call that a dispatch
    makes is a call of the CORS writer, of a route handler, of the 404
    handler with an empty payload, or of the 500 handler with a payload that
    holds the panic value under [exception]; the 405 handler and the entries
    for other codes are never called. *)
Theorem X1_dispatch_calls_only_these rr w r :
  Forall (λ c, (∃ methods, c = CallCORS methods)
               ∨ (∃ j p, c = CallRoute j p)
               ∨ c = CallErrorCode 404 ∅
               ∨ ∃ v, c = CallErrorCode 500 {[ "exception" := v ]})
    (calls_of (Handler rr w r)).
Proof.
  rewrite Handler_calls. apply Forall_app. split.
  - destruct (Handler_body_calls rr r w)
      as [[_ ->]|(pre & route & post & _ & _ & _ & rc & -> & Hshape)].
    + apply Forall_singleton. case_bool_decide; eauto.
    + apply Forall_app. split.
      * destruct (CORS route); [apply Forall_singleton; eauto|constructor].
      * destruct Hshape as [->|(p & -> & _)]; [constructor|].
        apply Forall_singleton. eauto 6.
  - destruct (res_fault _); [|constructor].
    apply Forall_singleton. eauto 6.
Qed.

(** X2: a dispatch calls the CORS writer at most once, a route handler at
    most once, the 404 handler at most once and the 500 handler at most
    once; it never calls both a route handler and the 404 handler, and it
    makes three calls at most. *)
Theorem X2_each_collaborator_at_most_once rr w r :
  length (List.filter is_cors_call (calls_of (Handler rr w r))) ≤ 1
  ∧ length (List.filter is_route_call (calls_of (Handler rr w r))) ≤ 1
  ∧ length (List.filter (is_error_call 404) (calls_of (Handler rr w r))) ≤ 1
  ∧ length (List.filter (is_error_call 500) (calls_of (Handler rr w r))) ≤ 1
  ∧ length (List.filter is_route_call (calls_of (Handler rr w r)))
      + length (List.filter (is_error_call 404) (calls_of (Handler rr w r))) ≤ 1
  ∧ length (calls_of (Handler rr w r)) ≤ 3.
Proof.
  rewrite Handler_calls.
  destruct (Handler_body_calls rr r w)
    as [[_ ->]|(pre & route & post & _ & _ & _ & rc & -> & Hshape)].
  - case_bool_decide; destruct (res_fault _); simpl; lia.
  - destruct Hshape as [->|(p & -> & _)];
      destruct (CORS route), (res_fault _); simpl; lia.
Qed.


(** X4: a route without the CORS flag whose pattern matches the path, and
    before which the loop stops at no route, is dispatched whatever the
    method of the request: the only call of the body is the call of its
    handler, on the response as dispatch received it and on the request with
    the store of the match in its context, from where [Params] reads it
    back. *)
Theorem X4_plain_route_runs_for_any_method rr w r pre route post :
  Routes rr = pre ++ route :: post →
  all_passed r pre = true →
  matches_path r route = true →
  CORS route = false →
  length (SubexpNames (regex route))
    ≤ length (FindStringSubmatch (regex route) (URL_Path r)) →
  Handler rr w r
  = recover_500 rr r
      (invoke (CallRoute (length pre) (match_store r route))
         (λ w', handler route w' (WithContext r (match_store r route))) (start w))
  ∧ RegRouter_Params rr (WithContext r (match_store r route)) = Val (match_store r route).
Proof.
  intros Heq Hpre Hmatch Hcors Hlen. split; [|done].
  unfold Handler. rewrite (Handler_body_at rr r pre route post Heq Hpre).
  - rewrite Hcors. by rewrite run_route_match_store.
  - unfold taken. by rewrite Hmatch, Hcors.
Qed.

(** X5: a CORS route whose pattern matches the path and whose method is the
    request's under [EqualFold], and before which the loop stops at no route,
    is dispatched after one call of the CORS writer; the writer receives the
    methods of the earlier routes that match the path, in registration order,
    followed by the method of the dispatched route.  When the CORS writer
    panics, no route handler is called. *)
Theorem X5_cors_route_runs_after_the_cors_writer rr w r pre route post :
  Routes rr = pre ++ route :: post →
  all_passed r pre = true →
  matches_path r route = true →
  CORS route = true →
  method_matches r route = true →
  length (SubexpNames (regex route))
    ≤ length (FindStringSubmatch (regex route) (URL_Path r)) →
  Handler rr w r
  = recover_500 rr r
      ((do! call_CORS rr (matching_methods r pre ++ [method route]) r then
        invoke (CallRoute (length pre) (match_store r route))
          (λ w', handler route w' (WithContext r (match_store r route)))) (start w))
  ∧ (∀ v w1,
       Handlers_CORS (RHandlers rr) (matching_methods r pre ++ [method route]) w r
       = Panics v w1 →
       List.filter is_route_call (calls_of (Handler rr w r)) = []).
Proof.
  intros Heq Hpre Hmatch Hcors Hmeth Hlen.
  assert (Handler rr w r
          = recover_500 rr r
              ((do! call_CORS rr (matching_methods r pre ++ [method route]) r then
                invoke (CallRoute (length pre) (match_store r route))
                  (λ w', handler route w' (WithContext r (match_store r route))))
                 (start w))) as Hrun.
  { unfold Handler. rewrite (Handler_body_at rr r pre route post Heq Hpre).
    - rewrite Hcors. unfold bind, start.
      destruct (call_CORS rr _ r _) as [[] σ|v σ]; [|done].
      by rewrite run_route_match_store.
    - unfold taken. by rewrite Hmatch, Hcors, Hmeth. }
  split; [done|].
  intros v w1 Hpanic. rewrite Hrun.
  unfold bind, call_CORS, invoke, start, calls_of. simpl. rewrite Hpanic. simpl.
  unfold call_ErrorCode, invoke. simpl.
  by destruct (default nilFunc _ _ _).
Qed.

(** X13: a dispatch calls the 500 handler exactly when its body panicked;
    when the body returns, the dispatch returns what the body left, without
    any call of the 500 handler. *)
Theorem X13_500_called_exactly_on_panic rr w r :
  (∀ σ, Handler_body rr r (start w) = Ok tt σ →
        Handler rr w r = Ok tt σ
        ∧ List.filter (is_error_call 500) (calls_of (Handler rr w r)) = [])
  ∧ ((∃ data, CallErrorCode 500 data ∈ calls_of (Handler rr w r))
     ↔ is_Some (res_fault (Handler_body rr r (start w)))).
Proof.
  assert (∀ data, CallErrorCode 500 data ∉ calls_of (Handler_body rr r (start w)))
    as Hbody500.
  { intros data Hin. by apply Handler_body_error_calls in Hin as [? _]. }
  split.
  - intros σ Hbody. split.
    + unfold Handler. unfold start in Hbody. by rewrite Hbody.
    + rewrite Handler_calls, Hbody. simpl. rewrite app_nil_r.
      apply filter_none. intros [ | |code data] Hin; try done.
      change (calls σ) with (calls_of (Ok tt σ)) in Hin. rewrite <- Hbody in Hin.
      apply Handler_body_error_calls in Hin as [-> _]. done.
  - rewrite Handler_calls. split.
    + intros (data & [Hin|Hin]%elem_of_app); [by apply Hbody500 in Hin|].
      destruct (res_fault _); [by eexists|by apply elem_of_nil in Hin].
    + intros [v Hv]. rewrite Hv. eexists. apply elem_of_app. right. left.
Qed.

Lemma matching_methods_passed r routes (m : string) :
  Forall (λ route, taken r route = false) routes →
  m ∈ matching_methods r routes →
  ∃ route, route ∈ routes ∧ CORS route = true ∧ matches_path r route = true
           ∧ method route = m.
Proof.
  intros Hpassed (route & -> & [Hmatch Hin]%list_elem_of_filter)%list_elem_of_fmap.
  rewrite Forall_forall in Hpassed.
  destruct (not_taken_inv r route (Hpassed route Hin)) as [Hno|(_ & Hcors & _)];
    [congruence|].
  by exists route.
Qed.

(** X14: the methods that a dispatch hands to the CORS writer are never
    empty, and each of them is the method of a registered CORS route whose
    pattern matches the path of the request; the method of a route without
    the CORS flag is never among them. *)
Theorem X14_cors_writer_gets_methods_of_matching_cors_routes rr w r
    (methods : list string) :
  CallCORS methods ∈ calls_of (Handler rr w r) →
  methods ≠ []
  ∧ ∀ m, m ∈ methods →
         ∃ route, route ∈ Routes rr ∧ CORS route = true
                  ∧ matches_path r route = true ∧ method route = m.
Proof.
  rewrite Handler_calls.
  destruct (Handler_body_calls rr r w)
    as [[Hnone ->]|(pre & route & post & Heq & Hpre & Htaken & rc & -> & Hshape)].
  - intros [Hin%list_elem_of_singleton|Hin]%elem_of_app.
    + case_bool_decide as Hlen; [|done]. inversion Hin; subst methods. split.
      * intros Hnil. rewrite Hnil in Hlen. simpl in Hlen. lia.
      * intros m Hm. by apply matching_methods_passed.
    + destruct (res_fault _); [|by apply elem_of_nil in Hin].
      by apply list_elem_of_singleton in Hin.
  - intros [[Hin|Hin]%elem_of_app|Hin]%elem_of_app.
    + destruct (CORS route) eqn:Hcors; [|by apply elem_of_nil in Hin].
      apply list_elem_of_singleton in Hin. inversion Hin; subst methods. split.
      * by destruct (matching_methods r pre).
      * intros m [Hm|Hm%list_elem_of_singleton]%elem_of_app.
        -- destruct (matching_methods_passed r pre m Hpre Hm)
             as (route' & Hin' & Hprops).
           exists route'. split; [|done]. rewrite Heq. apply elem_of_app. by left.
        -- exists route. subst m. split.
           { rewrite Heq. apply elem_of_app. right. left. }
           split; [done|]. split; [|done].
           unfold taken in Htaken. by destruct (matches_path r route).
    + destruct Hshape as [->|(p & -> & _)]; [by apply elem_of_nil in Hin|].
      by apply list_elem_of_singleton in Hin.
    + destruct (res_fault _); [|by apply elem_of_nil in Hin].
      by apply list_elem_of_singleton in Hin.
Qed.

End DispatchShape.

(** * Further properties of registration, static files and the defaults *)

Section RegistrationShape.
Context `{GoStrings} `{GoRegexp} `{GoFileServer}.
Implicit Types (rr : RegRouter) (r : Request) (route : Route)
  (routes pre post : list Route) (σ : World) (w : ResponseWriter) (p : Params).

(** X6: when every route whose pattern matches the path is a CORS route of
    another method than the request's, and there is one, a router with the
    default CORS writer answers with that single call: the methods of the
    matching routes, in registration order and joined by comma and space, in
    [Access-Control-Allow-Methods], the [Origin] of the request echoed, status
    204 unless a status was written before, and the body untouched. *)
Theorem X6_cors_routes_only_answer_204 rr w r :
  only_other_cors r (Routes rr) = true →
  existsb (matches_path r) (Routes rr) = true →
  Handlers_CORS (RHandlers rr) = default_CORS →
  ∃ w',
    Handler rr w r
    = Ok tt {| writer := w'; calls := [CallCORS (matching_methods r (Routes rr))] |}
    ∧ Header w' !! "Access-Control-Allow-Methods"
      = Some (Join (matching_methods r (Routes rr)) ", ")
    ∧ Header w' !! "Access-Control-Allow-Origin" = Some (Header_Get (ReqHeader r) "Origin")
    ∧ status w' = Some (default 204%Z (status w))
    ∧ body w' = body w.
Proof.
  intros Honly Hsome Hdefault.
  destruct (cors_only_no_content rr w r) as [Hrun _]; [| |clear Honly Hsome].
  - intros route Hin Hmatch. unfold only_other_cors in Honly.
    rewrite forallb_forall in Honly.
    specialize (Honly route (proj1 (list_elem_of_In _ _) Hin)).
    rewrite Hmatch in Honly. simpl in Honly.
    apply andb_true_iff in Honly as [Hcors Hmeth].
    split; [done|by apply negb_true_iff].
  - apply existsb_exists in Hsome as (route & Hin & Hmatch).
    exists route. split; [by apply list_elem_of_In|done].
  - rewrite Hrun. unfold bind, call_CORS, invoke, modify, start. simpl.
    rewrite Hdefault. simpl. eexists. split; [reflexivity|].
    rewrite Header_WriteHeader. unfold Header_Set. cbn [Header].
    split; [|split; [|split]].
    + rewrite !lookup_insert_ne by done. apply lookup_insert_eq.
    + rewrite !lookup_insert_ne by done. apply lookup_insert_eq.
    + unfold WriteHeader. cbn [status]. by destruct (status w).
    + unfold WriteHeader. cbn [status]. by destruct (status w).
Qed.


(** The loop reads the router only through its bundle of handlers. *)
Lemma route_loop_ext rr rr' r routes :
  RHandlers rr' = RHandlers rr →
  ∀ i methods allowed params,
    route_loop rr' r i routes methods allowed params
    = route_loop rr r i routes methods allowed params.
Proof.
  intros Hsame. induction routes as [|route routes IH]; intros i methods allowed params;
    cbn [route_loop].
  - unfold no_dispatch, call_CORS, call_ErrorCode. by rewrite Hsame.
  - rewrite !IH. unfold call_CORS. by rewrite Hsame.
Qed.

(** Routes after one that the loop stops at are not looked at. *)
Lemma route_loop_app_taken rr r routes extra :
  existsb (taken r) routes = true →
  ∀ i methods allowed params,
    route_loop rr r i (routes ++ extra) methods allowed params
    = route_loop rr r i routes methods allowed params.
Proof.
  induction routes as [|route routes IH]; intros Hex i methods allowed params;
    [done|].
  cbn [existsb] in Hex. destruct (taken r route) eqn:Htaken.
  - cbn [app]. by rewrite !route_loop_taken.
  - cbn [orb] in Hex.
    change ((route :: routes) ++ extra) with ([route] ++ (routes ++ extra)).
    change (route :: routes) with ([route] ++ routes).
    rewrite !(route_loop_skip rr r [route]) by (by constructor).
    by apply IH.
Qed.

(** A further route whose pattern does not match the path changes
    nothing. *)
Lemma route_loop_app_no_match rr r routes route' :
  matches_path r route' = false →
  ∀ i methods allowed params,
    route_loop rr r i (routes ++ [route']) methods allowed params
    = route_loop rr r i routes methods allowed params.
Proof.
  intros Hno. induction routes as [|route routes IH]; intros i methods allowed params;
    cbn [app route_loop].
  - unfold matches_path in Hno. by rewrite Hno.
  - by rewrite !IH.
Qed.

(** X7: registering a route leaves the dispatch of two kinds of requests as
    it was: those at which the loop already stops at a registered route, and
    those whose path the new pattern does not match.  The new route is only
    reached by requests that no earlier route takes. *)
Theorem X7_Add_keeps_earlier_dispatch rr (m pattern : string) (h : HandlerFunc)
    (cors : bool) rr' w r :
  Add rr m pattern h cors = Val rr' →
  (existsb (taken r) (Routes rr) = true → Handler rr' w r = Handler rr w r)
  ∧ (∀ re, Compile ("^" +:+ pattern +:+ "$") = inl re →
           length (FindStringSubmatch re (URL_Path r)) = 0 →
           Handler rr' w r = Handler rr w r).
Proof.
  intros (re & Hre & Hroutes & Hsame)%Add_appends_anchored.
  assert (∀ x, recover_500 rr' r x = recover_500 rr r x) as Hrecover.
  { intros [[] σ|v σ]; [done|]. unfold recover_500, call_ErrorCode. by rewrite Hsame. }
  split.
  - intros Htaken. unfold Handler, Handler_body.
    rewrite Hrecover, Hroutes, (route_loop_ext rr rr') by done.
    by rewrite route_loop_app_taken.
  - intros re' Hre' Hno. rewrite Hre in Hre'. inversion Hre'; subst re'.
    unfold Handler, Handler_body.
    rewrite Hrecover, Hroutes, (route_loop_ext rr rr') by done.
    rewrite route_loop_app_no_match; [done|].
    unfold matches_path. cbn [regex]. rewrite Hno. apply bool_decide_eq_false_2. lia.
Qed.

(** X8: when dispatch invokes a route whose pattern has a group named
    [filepath] and no later group of that name, the handler that [Static]
    registers hands the request to the file server of its root with the path
    replaced by a slash followed by the text of that group; the root is not
    put in front of the path. *)
Theorem X8_Static_serves_the_filepath_group rr w r j p (re : Regexp) rr0
    (path : string) w' (k : nat) :
  CallRoute j p ∈ calls_of (Handler rr w r) →
  regex <$> Routes rr !! j = Some re →
  SubexpNames re !! k = Some "filepath" →
  (∀ k', k < k' → SubexpNames re !! k' ≠ Some "filepath") →
  ∃ file,
    FindStringSubmatch re (URL_Path r) !! k = Some file
    ∧ Static_handler rr0 path w' (WithContext r p)
      = FileServer path w' (WithPath (WithContext r p) ("/" +:+ file)).
Proof.
  intros (pre & route & post & Heq & -> & _ & _ & Hset & _)%route_call_inv Hre Hk Hlast.
  rewrite Heq, list_lookup_middle in Hre by done. inversion Hre; subst re.
  apply set_params_spec in Hset as (Hlen & Hstore & _ & _).
  destruct (Hlen k _ Hk) as [file Hfile]. simpl in Hfile.
  exists file. split; [done|].
  specialize (Hstore k _ Hk). simpl in Hstore.
  rewrite param_key_named, Hfile in Hstore by done.
  unfold Static_handler, RegRouter_Params, Params_GetE. simpl.
  rewrite Hstore; [done|].
  intros k' name' Hlt Hk' Hkey.
  destruct (decide (name' = "")) as [->|Hne].
  - rewrite param_key_unnamed in Hkey. by apply Sprintf_d_not_filepath in Hkey.
  - rewrite param_key_named in Hkey by done. subst name'. by apply (Hlast k').
Qed.

End RegistrationShape.

(** * Further properties of the store and of the default handlers *)

Section StoreAndDefaults.
Context `{GoStrings}.

(** X9: on a store whose map is initialised, [Set] changes one key only:
    every other key reads as before through [Get] and [GetE]; and a second
    [Set] of the same key replaces the first, as if the first had not been
    made. *)
Theorem X9_Set_changes_one_key (p : Params) (key value : string) :
  Values p ≠ None →
  ∃ p',
    Params_Set p key value = Val (true, p')
    ∧ (∀ other, other ≠ key →
                Params_Get p' other = Params_Get p other
                ∧ Params_GetE p' other = Params_GetE p other)
    ∧ (∀ value', Params_Set p' key value' = Params_Set p key value').
Proof.
  intros Hinit. destruct p as [[m|]]; [|done]. clear Hinit.
  eexists. split; [by apply Params_Set_Some|]. split.
  - intros other Hother. unfold Params_Get, Params_GetE.
    rewrite map_index_Set. rewrite decide_False by done. done.
  - intros value'. unfold Params_Set. cbn [Values]. by rewrite insert_insert_eq.
Qed.

(** X10: [Get] is [GetE] with the error dropped, on every store, nil map
    included; [GetE] reports an error exactly for the keys that the map does
    not hold, and then its value is the empty string. *)
Theorem X10_Get_is_GetE_without_the_error (p : Params) (key : string) :
  Params_Get p key = (Params_GetE p key).1
  ∧ ((Params_GetE p key).2 = None ↔ is_Some (map_index p key))
  ∧ (is_Some (Params_GetE p key).2 → (Params_GetE p key).1 = "").
Proof.
  unfold Params_Get, Params_GetE. destruct (map_index p key) as [v|]; simpl.
  - repeat split; eauto. by intros [? ?].
  - repeat split; [done|by intros [? ?]].
Qed.

End StoreAndDefaults.

Section Defaults.



(** X12: the default CORS writer never panics and never touches status or
    body; it sets four headers, echoing the [Origin] header of the request
    (empty when the request has none) and joining the methods it is given by
    comma and space, and leaves every other header as it was. *)
Theorem X12_default_CORS_sets_four_headers (methods : list string)
    (w : ResponseWriter) (r : Request) :
  ∃ w',
    default_CORS methods w r = Returns w'
    ∧ status w' = status w
    ∧ body w' = body w
    ∧ Header w' !! "Access-Control-Allow-Origin" = Some (Header_Get (ReqHeader r) "Origin")
    ∧ Header w' !! "Access-Control-Allow-Methods" = Some (Join methods ", ")
    ∧ Header w' !! "Access-Control-Allow-Credentials" = Some "true"
    ∧ Header w' !! "Access-Control-Allow-Headers"
      = Some "Accept, Content-Type, Content-Length, Accept-Encoding, X-CSRF-Token, Authorization"
    ∧ (∀ key,
         key ∉ ["Access-Control-Allow-Origin"; "Access-Control-Allow-Methods";
                "Access-Control-Allow-Credentials"; "Access-Control-Allow-Headers"] →
         Header w' !! key = Header w !! key).
Proof.
  eexists. split; [reflexivity|]. unfold Header_Set. cbn [Header status body].
  repeat split.
  - rewrite !lookup_insert_ne by done. apply lookup_insert_eq.
  - rewrite !lookup_insert_ne by done. apply lookup_insert_eq.
  - rewrite !lookup_insert_ne by done. apply lookup_insert_eq.
  - apply lookup_insert_eq.
  - intros key Hkey. rewrite !not_elem_of_cons in Hkey.
    destruct Hkey as (? & ? & ? & ? & _). by rewrite !lookup_insert_ne.
Qed.

End Defaults.

(** * The further properties, on the examples *)

Section EvaluatedFurther.
#[local] Existing Instance ascii_strings.
#[local] Existing Instance re_regexp.
#[local] Existing Instance echo_file_server.


(** A [POST] on the only route of [plain_get], registered for [GET]. *)
Lemma X4_witness :
  Handler (router_of plain_get) blank (request "POST" "/a")
  = recover_500 (router_of plain_get) (request "POST" "/a")
      (invoke (CallRoute 0 (match_store (request "POST" "/a") (route_a "GET" "one" false)))
         (λ w', say "one" w'
                  (WithContext (request "POST" "/a")
                     (match_store (request "POST" "/a") (route_a "GET" "one" false))))
         (start blank))
  ∧ RegRouter_Params (router_of plain_get)
      (WithContext (request "POST" "/a")
         (match_store (request "POST" "/a") (route_a "GET" "one" false)))
    = Val (match_store (request "POST" "/a") (route_a "GET" "one" false)).
Proof.
  apply (X4_plain_route_runs_for_any_method (router_of plain_get) blank
           (request "POST" "/a") [] (route_a "GET" "one" false) []).
  - reflexivity.
  - reflexivity.
  - vm_compute. reflexivity.
  - reflexivity.
  - vm_compute. lia.
Defined.

(** A [POST] on [cors_get_and_post]: the loop passes over the [GET] route
    and stops at the [POST] route. *)
Lemma X5_witness :
  Handler (router_of cors_get_and_post) blank (request "POST" "/a")
  = recover_500 (router_of cors_get_and_post) (request "POST" "/a")
      ((do! call_CORS (router_of cors_get_and_post)
              (matching_methods (request "POST" "/a") [route_a "GET" "one" true]
                 ++ ["POST"]) (request "POST" "/a") then
        invoke (CallRoute 1 (match_store (request "POST" "/a") (route_a "POST" "two" true)))
          (λ w', say "two" w'
                   (WithContext (request "POST" "/a")
                      (match_store (request "POST" "/a") (route_a "POST" "two" true)))))
         (start blank)).
Proof.
  apply (X5_cors_route_runs_after_the_cors_writer (router_of cors_get_and_post) blank
           (request "POST" "/a") [route_a "GET" "one" true] (route_a "POST" "two" true) []).
  - reflexivity.
  - vm_compute. reflexivity.
  - vm_compute. reflexivity.
  - reflexivity.
  - vm_compute. reflexivity.
  - vm_compute. lia.
Defined.

(** What that dispatch comes to. *)
Example cors_dispatch_evaluated :
  Handler (router_of cors_get_and_post) blank (request "POST" "/a")
  = Ok tt {| writer :=
               {| Header :=
                    {[ "Access-Control-Allow-Origin" := "http://example.org";
                       "Access-Control-Allow-Methods" := "GET, POST";
                       "Access-Control-Allow-Credentials" := "true";
                       "Access-Control-Allow-Headers" :=
                         "Accept, Content-Type, Content-Length, Accept-Encoding, X-CSRF-Token, Authorization" ]};
                  status := Some 200%Z;
                  body := "two" |};
             calls := [CallCORS ["GET"; "POST"];
                       CallRoute 1 {| Values := Some {[ "0" := "/a" ]} |}] |}.
Proof. vm_compute. reflexivity. Qed.

(** A [PUT] on [cors_get_and_post]. *)
Lemma X6_witness :
  ∃ w',
    Handler (router_of cors_get_and_post) blank (request "PUT" "/a")
    = Ok tt {| writer := w';
               calls := [CallCORS (matching_methods (request "PUT" "/a")
                                     (Routes (router_of cors_get_and_post)))] |}
    ∧ Header w' !! "Access-Control-Allow-Methods"
      = Some (Join (matching_methods (request "PUT" "/a")
                      (Routes (router_of cors_get_and_post))) ", ")
    ∧ Header w' !! "Access-Control-Allow-Origin"
      = Some (Header_Get (ReqHeader (request "PUT" "/a")) "Origin")
    ∧ status w' = Some (default 204%Z (status blank))
    ∧ body w' = body blank.
Proof.
  apply X6_cors_routes_only_answer_204.
  - vm_compute. reflexivity.
  - vm_compute. reflexivity.
  - reflexivity.
Defined.

(** The call of the CORS writer in the dispatch of a [PUT] on
    [cors_get_and_post]. *)
Lemma X14_witness :
  ["GET"; "POST"] ≠ []
  ∧ ∀ m, m ∈ ["GET"; "POST"] →
         ∃ route, route ∈ Routes (router_of cors_get_and_post) ∧ CORS route = true
                  ∧ matches_path (request "PUT" "/a") route = true ∧ method route = m.
Proof.
  apply (X14_cors_writer_gets_methods_of_matching_cors_routes
           (router_of cors_get_and_post) blank (request "PUT" "/a")).
  vm_compute. left.
Defined.

(** [plain_get] and the same router after the registration of [POST /b]: a
    [GET /a] and a [GET /c] are dispatched alike by both. *)
Lemma X7_witness :
  Handler (router_of plain_get_then_post_b) blank (request "GET" "/a")
  = Handler (router_of plain_get) blank (request "GET" "/a")
  ∧ Handler (router_of plain_get_then_post_b) blank (request "GET" "/c")
    = Handler (router_of plain_get) blank (request "GET" "/c").
Proof.
  assert (Add (router_of plain_get) "POST" "/b" (say "two") false
          = Val (router_of plain_get_then_post_b)) as Hadd.
  { apply (Val_router_of plain_get_then_post_b). vm_compute. reflexivity. }
  split.
  - apply (proj1 (X7_Add_keeps_earlier_dispatch _ _ _ _ _ _ blank
                    (request "GET" "/a") Hadd)).
    vm_compute. reflexivity.
  - apply (proj2 (X7_Add_keeps_earlier_dispatch _ _ _ _ _ _ blank
                    (request "GET" "/c") Hadd) (compiled "^/b$")).
    + vm_compute. reflexivity.
    + vm_compute. reflexivity.
Defined.

(** The static route with a group named [filepath], on [/static/x.css]. *)
Lemma X8_witness :
  ∃ file,
    FindStringSubmatch (compiled "^/static/(?P<filepath>.*)$")
      (URL_Path (request "GET" "/static/x.css")) !! 1 = Some file
    ∧ Static_handler New "/www" blank
        (WithContext (request "GET" "/static/x.css")
           {| Values := Some {[ "0" := "/static/x.css"; "filepath" := "x.css" ]} |})
      = FileServer "/www" blank
          (WithPath
             (WithContext (request "GET" "/static/x.css")
                {| Values := Some {[ "0" := "/static/x.css"; "filepath" := "x.css" ]} |})
             ("/" +:+ file)).
Proof.
  apply (X8_Static_serves_the_filepath_group (router_of static_named) blank
           (request "GET" "/static/x.css") 0
           {| Values := Some {[ "0" := "/static/x.css"; "filepath" := "x.css" ]} |}
           (compiled "^/static/(?P<filepath>.*)$") New "/www" blank 1).
  - vm_compute. left.
  - vm_compute. reflexivity.
  - vm_compute. reflexivity.
  - intros [|[|k']] Hlt; try lia. vm_compute. discriminate.
Defined.

(** A store with one key, and a [Set] of another. *)
Lemma X9_witness :
  ∃ p',
    Params_Set {| Values := Some {[ "a" := "1" ]} |} "b" "2" = Val (true, p')
    ∧ (∀ other, other ≠ "b" →
                Params_Get p' other = Params_Get {| Values := Some {[ "a" := "1" ]} |} other
                ∧ Params_GetE p' other
                  = Params_GetE {| Values := Some {[ "a" := "1" ]} |} other)
    ∧ (∀ value', Params_Set p' "b" value'
                 = Params_Set {| Values := Some {[ "a" := "1" ]} |} "b" value').
Proof.
  apply X9_Set_changes_one_key. simpl. discriminate.
Defined.

End EvaluatedFurther.
